(** * SAVORIAHOTEL chatbot: the sliding-window rate limiter

    A shallow embedding of [chatbot/throttling.py] and of the admission
    gate of [chatbot/main.py], with the properties of the limiter proved
    over it.

    Conventions of the embedding.
    - A timestamp is a [Z]: a number of clock ticks since the epoch,
      [ticks_per_second] ticks to the second.  [time.time()] returns such
      a value; rounding of floating point additions is not modelled.
    - A Python float in general is a [pyfloat]: such a finite value, an
      infinity or a NaN.  The clock returns finite values, so the lists of
      the fallback store hold timestamps; [float] reads the other values
      from text that comes from the shared backend.
    - Every call of [time.time()] is an explicit argument of the function
      that makes it, in the order in which the source reads the clock.
    - A list of the fallback store is an object on a heap and is handled
      through its location, so that two names of one list see each other's
      updates.  The list that the fetch builds from a reply of the backend
      has one name only, in the caller, and is carried as a value.
    - A Python function is a state transformer over the world that may
      raise: it returns [Ok v] or [Raise e] together with the new world. *)

From stdpp Require Import gmap strings list fin_maps sorting.
From Stdlib Require Import ZArith Lia.

Local Open Scope Z_scope.

(** ** Time *)

Abbreviation time := Z (only parsing).

Definition ticks_per_second : Z := 1000000.

(** A whole number of seconds (a Python [int]) as a duration. *)
Definition seconds (n : Z) : time := n * ticks_per_second.

(** Python's [int(x)] on a finite float duration [x]: whole seconds,
    truncated towards zero. *)
Definition py_int (d : time) : Z := Z.quot d ticks_per_second.

(** ** Floats *)

Inductive pyfloat :=
  | Finite (t : time)
  | PosInf
  | NegInf
  | NaN.

(** [x < y]: every comparison with a NaN is false. *)
Definition float_lt (x y : pyfloat) : bool :=
  match x, y with
  | NaN, _ | _, NaN => false
  | Finite a, Finite b => a <? b
  | Finite _, PosInf => true
  | Finite _, NegInf => false
  | PosInf, _ => false
  | NegInf, NegInf => false
  | NegInf, _ => true
  end.

(** [x + d] for a finite [d]. *)
Definition float_add (x : pyfloat) (d : time) : pyfloat :=
  match x with
  | Finite t => Finite (t + d)
  | _ => x
  end.

(** ** The policy table *)

Record Config := { limit : Z; window : Z }.

Definition RATE_LIMITS : gmap string Config :=
  <["global_unauthenticated_user" := {| limit := 20; window := 60 |}]>
  (<["authenticated_user" := {| limit := 100; window := 60 |}]>
  (<["premium_user" := {| limit := 500; window := 60 |}]> ∅)).

(** ** Results and exceptions *)

(** The [detail] of the 429 response. *)
Module Rejected.
Record t := {
  error : string;
  limit : Z;
  window : Z;
  current_usage : Z;
  reset_time : time;
  retry_after : Z
}.
End Rejected.

(** The dictionary returned on admission. *)
Module Admission.
Record t := {
  allowed : bool;
  limit : Z;
  remaining : Z;
  reset_time : time
}.
End Admission.

(** The dictionary returned by [get_rate_limit_info]. *)
Module Info.
Record t := {
  limit : Z;
  remaining : Z;
  reset_time : time;
  window : Z
}.
End Info.

Inductive Detail :=
  | DetailText (s : string)
  | DetailRate (d : Rejected.t).

Inductive exn :=
  | HTTPException (status_code : Z) (detail : Detail)
  | KeyError (key : string)
  | ValueError (msg : string)
  | OverflowError (msg : string)
  | BackendError (msg : string).

Definition HTTP_429_TOO_MANY_REQUESTS : Z := 429.

Inductive Result (A : Type) :=
  | Ok (a : A)
  | Raise (e : exn).
Arguments Ok {A} a.
Arguments Raise {A} e.

(** [d[k]] on a dictionary: [KeyError] when the key is absent. *)
Definition dict_getitem {V} (d : gmap string V) (k : string) : Result V :=
  match d !! k with
  | Some v => Ok v
  | None => Raise (KeyError k)
  end.

(** [RATE_LIMITS.get(user_type, RATE_LIMITS["global_unauthenticated_user"])]:
    the default is evaluated first, as Python evaluates arguments. *)
Definition _get_rate_limit_config (user_type : string) : Result Config :=
  match dict_getitem RATE_LIMITS "global_unauthenticated_user" with
  | Ok dflt => Ok (default dflt (RATE_LIMITS !! user_type))
  | Raise e => Raise e
  end.

(** ** The world: the fallback store, the heap of lists, the backend *)

Abbreviation loc := nat (only parsing).

(** Strings held by the shared backend, by what [float] makes of them:
    [StrOfFloat x] is a text that [float] reads as [x], where [x] is finite
    or, for texts such as [inf], [-inf], [nan] and [1e999], is not; any
    other text makes [float] raise [ValueError].  A member written by the
    limiter is [str(timestamp)], which [float] reads back. *)
Inductive RedisStr :=
  | StrOfFloat (x : pyfloat)
  | StrOther (s : string).

Definition py_str (t : time) : RedisStr := StrOfFloat (Finite t).

Definition py_float (s : RedisStr) : Result pyfloat :=
  match s with
  | StrOfFloat x => Ok x
  | StrOther _ => Raise (ValueError "could not convert string to float")
  end.

(** The client of the shared backend, over a server state [R].  Every
    command may raise, and leaves the server in some state either way. *)
Record RedisClient (R : Type) := {
  zremrangebyscore : string → Z → Z → R → Result Z * R;
  zrangebyscore : string → Z → Z → R → Result (list RedisStr) * R;
  zadd : string → list (RedisStr * Z) → R → Result Z * R;
  expire : string → Z → R → Result bool * R
}.
Arguments zremrangebyscore {R} _ _ _ _ _.
Arguments zrangebyscore {R} _ _ _ _ _.
Arguments zadd {R} _ _ _ _.
Arguments expire {R} _ _ _ _.

Record World (R : Type) := {
  memory_store : gmap string nat;   (* user_requests: key -> list object *)
  heap : gmap nat (list Z);         (* the list objects *)
  next_loc : nat;                   (* the next unused location *)
  redis : R                         (* the state of the shared backend *)
}.
Arguments memory_store {R} _.
Arguments heap {R} _.
Arguments next_loc {R} _.
Arguments redis {R} _.

(** ** Python functions as state transformers *)

Definition Py (R A : Type) : Type := World R → Result A * World R.

Definition ret {R A} (a : A) : Py R A := fun w => (Ok a, w).

Definition raise {R A} (e : exn) : Py R A := fun w => (Raise e, w).

Definition bind {R A B} (m : Py R A) (k : A → Py R B) : Py R B :=
  fun w =>
    match m w with
    | (Ok a, w') => k a w'
    | (Raise e, w') => (Raise e, w')
    end.

Notation "'let*' x ':=' m 'in' k" := (bind m (fun x => k))
  (at level 10, x pattern, m at level 100, k at level 200).

(** [try: m except Exception as e: h e]; every exception of the model is an
    [Exception]. *)
Definition try_except {R A} (m : Py R A) (h : exn → Py R A) : Py R A :=
  fun w =>
    match m w with
    | (Ok a, w') => (Ok a, w')
    | (Raise e, w') => h e w'
    end.

(** A pure computation that may raise, run in the world. *)
Definition lift {R A} (r : Result A) : Py R A := fun w => (r, w).

(** ** List objects *)

(** The contents of the list object at [l]. *)
Definition list_items {R} (l : loc) : Py R (list Z) :=
  fun w => (Ok (heap w !!! l), w).

(** A new list object. *)
Definition new_list {R} (xs : list Z) : Py R loc :=
  fun w =>
    let l := next_loc w in
    (Ok l, {| memory_store := memory_store w;
              heap := <[l := xs]> (heap w);
              next_loc := S l;
              redis := redis w |}).

(** [l.append(x)]: in place. *)
Definition list_append {R} (l : loc) (x : Z) : Py R unit :=
  fun w =>
    (Ok tt, {| memory_store := memory_store w;
               heap := <[l := (heap w !!! l) ++ [x]]> (heap w);
               next_loc := next_loc w;
               redis := redis w |}).

(** The value of a variable that holds a list of floats: the list object
    of the fallback store, or a list that the function has built itself
    from a reply of the backend and that nothing else refers to. *)
Inductive PyList :=
  | Stored (l : loc)
  | Fresh (xs : list pyfloat).

(** [len(l)]. *)
Definition len {R} (l : PyList) : Py R Z :=
  match l with
  | Stored l => let* xs := list_items l in ret (Z.of_nat (length xs))
  | Fresh xs => ret (Z.of_nat (length xs))
  end.

(** [min] of a list of floats: [ValueError] on an empty list; otherwise the
    first item, replaced by each later item that is less than it. *)
Definition float_min (xs : list pyfloat) : Result pyfloat :=
  match xs with
  | [] => Raise (ValueError "min() arg is an empty sequence")
  | x :: xs' => Ok (foldl (fun m y => if float_lt y m then y else m) x xs')
  end.

(** [min(l)]. *)
Definition py_min {R} (l : PyList) : Py R pyfloat :=
  match l with
  | Stored l => let* xs := list_items l in lift (float_min (Finite <$> xs))
  | Fresh xs => lift (float_min xs)
  end.

(** The least of a list of timestamps. *)
Definition list_min (xs : list Z) : Result Z :=
  match xs with
  | [] => Raise (ValueError "min() arg is an empty sequence")
  | x :: xs' => Ok (foldr Z.min x xs')
  end.

(** ** The [defaultdict(list)] of the fallback store *)

(** [memory_store[key] = l]. *)
Definition dict_setitem {R} (key : string) (l : loc) : Py R unit :=
  fun w =>
    (Ok tt, {| memory_store := <[key := l]> (memory_store w);
               heap := heap w;
               next_loc := next_loc w;
               redis := redis w |}).

(** [memory_store[key]]: a missing key gets a new empty list. *)
Definition defaultdict_getitem {R} (key : string) : Py R loc :=
  fun w =>
    match memory_store w !! key with
    | Some l => (Ok l, w)
    | None => (let* l := new_list [] in
               let* _ := dict_setitem key l in
               ret l) w
    end.

(** The records held for [key]: the contents of [memory_store[key]], empty
    when the key is absent. *)
Definition records {R} (w : World R) (key : string) : list Z :=
  match memory_store w !! key with
  | Some l => heap w !!! l
  | None => []
  end.

(** ** Calls to the backend *)

Definition set_redis {R} (w : World R) (s : R) : World R :=
  {| memory_store := memory_store w;
     heap := heap w;
     next_loc := next_loc w;
     redis := s |}.

(** A command sent to the server: the reply, or the exception of the
    client, and the server's new state. *)
Definition redis_call {R A} (op : R → Result A * R) : Py R A :=
  fun w => let (r, s) := op (redis w) in (r, set_redis w s).

(** [[float(req) for req in requests]]. *)
Fixpoint floats_of (requests : list RedisStr) : Result (list pyfloat) :=
  match requests with
  | [] => Ok []
  | req :: rest =>
      match py_float req with
      | Ok t =>
          match floats_of rest with
          | Ok ts => Ok (t :: ts)
          | Raise e => Raise e
          end
      | Raise e => Raise e
      end
  end.

(** ** RateLimiter *)

Section RateLimiter.
Context {R : Type}.

(** [self.redis_client]: fixed when the module is loaded, [None] when the
    connection probe failed. *)
Variable redis_client : option (RedisClient R).

Definition _get_requests_from_redis (c : RedisClient R)
    (key : string) (window : Z) (current_time : time) : Py R (list pyfloat) :=
  try_except
    (let* _ := redis_call (zremrangebyscore c key 0 (current_time - seconds window)) in
     let* requests :=
       redis_call (zrangebyscore c key (current_time - seconds window) current_time) in
     lift (floats_of requests))
    (fun e => ret []).

Definition _add_request_to_redis (c : RedisClient R)
    (key : string) (timestamp : time) (window : Z) : Py R unit :=
  try_except
    (let* _ := redis_call (zadd c key [(py_str timestamp, timestamp)]) in
     let* _ := redis_call (expire c key window) in
     ret tt)
    (fun e => ret tt).

Definition _get_requests_from_memory
    (key : string) (window : Z) (current_time : time) : Py R loc :=
  let* old := defaultdict_getitem key in
  let* ts := list_items old in
  let* kept := new_list (filter (fun t => current_time - seconds window < t) ts) in
  let* _ := dict_setitem key kept in
  defaultdict_getitem key.

Definition _add_request_to_memory (key : string) (timestamp : time) : Py R unit :=
  let* l := defaultdict_getitem key in
  list_append l timestamp.

(** [current_time] is the clock read by [check_rate_limit] itself;
    [fetch_time] is the later read made inside the fetch.  In the detail
    of the rejection, [int(reset_time - current_time)] returns when
    [reset_time] is finite; on an infinity, which stays one when a finite
    time is subtracted, [int] raises [OverflowError], and on a NaN
    [ValueError], and that exception leaves the function in the place of
    the rejection. *)
Definition check_rate_limit (user_id user_type : string)
    (current_time fetch_time : time) : Py R Admission.t :=
  let* config := lift (_get_rate_limit_config user_type) in
  let limit := limit config in
  let window := window config in
  let key := "rate_limit:" +:+ user_id in
  let* recent_requests :=
    match redis_client with
    | Some c =>
        let* xs := _get_requests_from_redis c key window fetch_time in ret (Fresh xs)
    | None =>
        let* l := _get_requests_from_memory key window fetch_time in ret (Stored l)
    end in
  let* n := len recent_requests in
  if limit <=? n then
    let* oldest := py_min recent_requests in
    let reset_time := float_add oldest (seconds window) in
    let* usage := len recent_requests in
    match reset_time with
    | Finite reset_time =>
        raise (HTTPException HTTP_429_TOO_MANY_REQUESTS
                 (DetailRate {| Rejected.error := "Rate limit exceeded";
                                Rejected.limit := limit;
                                Rejected.window := window;
                                Rejected.current_usage := usage;
                                Rejected.reset_time := reset_time;
                                Rejected.retry_after := py_int (reset_time - current_time) |}))
    | PosInf | NegInf =>
        raise (OverflowError "cannot convert float infinity to integer")
    | NaN => raise (ValueError "cannot convert float NaN to integer")
    end
  else
    let* _ :=
      match redis_client with
      | Some c => _add_request_to_redis c key current_time window
      | None => _add_request_to_memory key current_time
      end in
    let* n' := len recent_requests in
    ret {| Admission.allowed := true;
           Admission.limit := limit;
           Admission.remaining := limit - n' - 1;
           Admission.reset_time := current_time + seconds window |}.

Definition apply_rate_limit (user_id user_type : string)
    (current_time fetch_time : time) : Py R Admission.t :=
  check_rate_limit user_id user_type current_time fetch_time.

(** [fetch_time] is the clock read inside the fetch, [info_time] the read
    made for the returned [reset_time]. *)
Definition get_rate_limit_info (user_id user_type : string)
    (fetch_time info_time : time) : Py R Info.t :=
  let* config := lift (_get_rate_limit_config user_type) in
  let key := "rate_limit:" +:+ user_id in
  let* recent_requests :=
    match redis_client with
    | Some c =>
        let* xs := _get_requests_from_redis c key (window config) fetch_time in
        ret (Fresh xs)
    | None =>
        let* l := _get_requests_from_memory key (window config) fetch_time in
        ret (Stored l)
    end in
  let* n := len recent_requests in
  ret {| Info.limit := limit config;
         Info.remaining := limit config - n;
         Info.reset_time := info_time + seconds (window config);
         Info.window := window config |}.

End RateLimiter.

Definition empty_world {R} (s : R) : World R :=
  {| memory_store := ∅; heap := ∅; next_loc := 0%nat; redis := s |}.

Definition default_user_type : string := "global_unauthenticated_user".

(** ** Views of the world used in the statements *)

(** The records of [key] that a fetch at [now] keeps. *)
Definition in_window (win : Z) (now : time) (ts : list Z) : list Z :=
  filter (fun t => now - seconds win < t) ts.

(** ** The admission gate of [/ask_rag] *)

Record RAGRequest := {
  question : string;
  session_id : option string;
  user_context : option (list (string * string))
}.

Section Endpoint.
Context {R Resp : Type}.
Variable redis_client : option (RedisClient R).

(** What the endpoint does once the request is admitted: session history,
    the retrieval chain, the response.  These are collaborators of the
    limiter and are taken as given. *)
Variable respond : RAGRequest → Py R Resp.

Definition ask_rag_endpoint (request : RAGRequest)
    (current_time fetch_time : time) : Py R Resp :=
  try_except
    (let* _ := apply_rate_limit redis_client
                 "global_unauthenticated_user" default_user_type
                 current_time fetch_time in
     respond request)
    (fun e => raise (HTTPException 500 (DetailText "Internal server error"))).
End Endpoint.

(** ** Sequences of calls and the scenario of a burst *)

(** A sequence of calls for one user and tier; each call is given by its two
    clock reads. *)
Fixpoint run_checks {R} (rc : option (RedisClient R)) (user_id user_type : string)
    (calls : list (time * time)) (w : World R) : list (Result Admission.t) * World R :=
  match calls with
  | [] => ([], w)
  | (current_time, fetch_time) :: rest =>
      let (r, w') := check_rate_limit rc user_id user_type current_time fetch_time w in
      let (rs, w'') := run_checks rc user_id user_type rest w' in
      (r :: rs, w'')
  end.

(** The scenario of the specification: [n] calls in a burst that starts
    1000 s after the epoch, 40 ms apart, each reading the clock a second
    time 1 ms after the first. *)
Definition burst (n : nat) : list (time * time) :=
  (fun i => (seconds 1000 + 40000 * i, seconds 1000 + 40000 * i + 1000)) <$> seqZ 0 (Z.of_nat n).

Definition world_after_burst (n : nat) : World unit :=
  snd (run_checks None "u1" default_user_type (burst n) (empty_world tt)).

(** A client whose server is down: every command raises. *)
Definition down_client : RedisClient unit :=
  {| zremrangebyscore := fun _ _ _ s => (Raise (BackendError "connection refused"), s);
     zrangebyscore := fun _ _ _ s => (Raise (BackendError "connection refused"), s);
     zadd := fun _ _ s => (Raise (BackendError "connection refused"), s);
     expire := fun _ _ s => (Raise (BackendError "connection refused"), s) |}.

(** A server of sorted sets, for the examples: under each key the members
    with their scores, in the order of the scores, members of one score in
    the order of their arrival; a key whose set is empty is gone.  The
    expiry of keys is not part of it. *)
Abbreviation ZSets := (gmap string (list (RedisStr * Z))) (only parsing).

#[global] Instance pyfloat_eq_dec : EqDecision pyfloat.
Proof. solve_decision. Defined.

#[global] Instance RedisStr_eq_dec : EqDecision RedisStr.
Proof. solve_decision. Defined.

Fixpoint zinsert (m : RedisStr * Z) (zs : list (RedisStr * Z)) : list (RedisStr * Z) :=
  match zs with
  | [] => [m]
  | z :: zs' => if m.2 <? z.2 then m :: z :: zs' else z :: zinsert m zs'
  end.

(** [ZADD key score member]: the member gets the score, at its place. *)
Definition zset_add (zs : list (RedisStr * Z)) (m : RedisStr * Z) : list (RedisStr * Z) :=
  zinsert m (filter (fun z => z.1 ≠ m.1) zs).

(** The replies are those of Redis: the number of members removed, the
    members in the range, the number of members that are new, and whether
    the key exists. *)
Definition zset_server : RedisClient ZSets :=
  {| zremrangebyscore := fun key lo hi s =>
       let old := default [] (s !! key) in
       let kept := filter (fun m => ¬ (lo ≤ m.2 ≤ hi)) old in
       (Ok (Z.of_nat (length old) - Z.of_nat (length kept)),
        match kept with
        | [] => delete key s
        | _ => <[key := kept]> s
        end);
     zrangebyscore := fun key lo hi s =>
       (Ok ((filter (fun m => lo ≤ m.2 ≤ hi) (default [] (s !! key))).*1), s);
     zadd := fun key items s =>
       let old := default [] (s !! key) in
       (Ok (Z.of_nat (length (filter (fun m => m.1 ∉ old.*1) items))),
        <[key := foldl zset_add old items]> s);
     expire := fun key ttl s => (Ok (bool_decide (is_Some (s !! key))), s) |}.

(** The same server behind a connection that is lost after [zadd]: the
    member is written, and [expire] raises. *)
Definition expire_fails : RedisClient ZSets :=
  {| zremrangebyscore := zremrangebyscore zset_server;
     zrangebyscore := zrangebyscore zset_server;
     zadd := zadd zset_server;
     expire := fun key ttl s => (Raise (BackendError "connection lost"), s) |}.

(** A key of the server that another writer has used: twenty members in
    the window of a call at 1001 s, the oldest of them the text [nan]. *)
Definition foreign_members : list (RedisStr * Z) :=
  (StrOfFloat NaN, seconds 990)
  :: ((fun i => (StrOfFloat (Finite (seconds 1000 + i)), seconds 1000 + i)) <$> seqZ 0 19).

Definition foreign_world : World ZSets :=
  empty_world (<["rate_limit:u1" := foreign_members]> ∅).

(** What makes a client and its server a sorted set for the two commands
    of the fetch, seen through [view]: the members of a key with their
    scores, in the order of the replies.  [zremrangebyscore] removes the
    members with a score in the range, [zrangebyscore] returns those with a
    score in the range, bounds included, and neither raises. *)
Definition sorted_set_server {R} (c : RedisClient R)
    (view : R → string → list (RedisStr * Z)) : Prop :=
  (∀ key lo hi s, ∃ n s',
     zremrangebyscore c key lo hi s = (Ok n, s')
     ∧ view s' key = filter (fun m => ¬ (lo ≤ m.2 ≤ hi)) (view s key))
  ∧ (∀ key lo hi s, ∃ s',
       zrangebyscore c key lo hi s
       = (Ok ((filter (fun m => lo ≤ m.2 ≤ hi) (view s key)).*1), s')
       ∧ view s' key = view s key).

(** The members of a key of the server of the examples. *)
Definition zset_view (s : ZSets) (key : string) : list (RedisStr * Z) :=
  default [] (s !! key).

(** The server of the examples after five requests of [u1], one second
    apart from 1000 s. *)
Definition five_members : ZSets :=
  <["rate_limit:u1" :=
      (fun i => (StrOfFloat (Finite (seconds (1000 + i))), seconds (1000 + i))) <$> seqZ 0 5]> ∅.

(** The same server after a sixth request, at 1005.5 s. *)
Definition six_members : ZSets :=
  <["rate_limit:u1" :=
      ((fun i => (StrOfFloat (Finite (seconds (1000 + i))), seconds (1000 + i))) <$> seqZ 0 5)
      ++ [(py_str (seconds 1005 + 500000), seconds 1005 + 500000)]]> ∅.

(** The rejection of the limiter, as an exception. *)
Definition is_rate_limit_exceeded (e : exn) : Prop :=
  match e with
  | HTTPException code (DetailRate _) => code = HTTP_429_TOO_MANY_REQUESTS
  | _ => False
  end.

(** The result of the [i]-th admission (from 0) of a burst that found [seen]
    records in the window.  On the fallback store the record of the request
    is already in the list when [remaining] is computed, so [remaining] is
    the limit minus the records seen before the request, minus two. *)
Definition fallback_admission (cfg : Config) (seen : nat) (i : nat) (c : time * time)
    : Result Admission.t :=
  Ok {| Admission.allowed := true;
        Admission.limit := limit cfg;
        Admission.remaining := limit cfg - Z.of_nat (seen + i) - 2;
        Admission.reset_time := c.1 + seconds (window cfg) |}.

(** The world left by the call that follows the burst of 20, 800 ms after
    its start. *)
Definition late_world : World unit :=
  snd (check_rate_limit None "u1" default_user_type
         (seconds 1000 + 800000) (seconds 1000 + 801000) (world_after_burst 20)).

Definition late_detail : Rejected.t :=
  {| Rejected.error := "Rate limit exceeded";
     Rejected.limit := 20;
     Rejected.window := 60;
     Rejected.current_usage := 20;
     Rejected.reset_time := seconds 1060;
     Rejected.retry_after := 59 |}.

(** ** Further views of the fallback store *)

(** The keys of the store refer to lists that exist: every location held by
    [memory_store] is below [next_loc]. *)
Definition wf_world {R} (w : World R) : Prop :=
  ∀ k l, memory_store w !! k = Some l → (l < next_loc w)%nat.

(** The timestamps recorded by the admitted calls of a run: the first clock
    read of every call whose result is not an exception. *)
Fixpoint admitted_stamps (results : list (Result Admission.t))
    (calls : list (time * time)) : list Z :=
  match results, calls with
  | Ok _ :: results', (current_time, _) :: calls' =>
      current_time :: admitted_stamps results' calls'
  | Raise _ :: results', _ :: calls' => admitted_stamps results' calls'
  | _, _ => []
  end.

(** The ways the fetch from the backend fails at time [now], from the server
    state [s]: the pruning command raises, the range query raises, or the
    range query returns a member that [float] does not read. *)
Definition fetch_fails {R} (c : RedisClient R) (key : string) (win : Z) (now : time)
    (s : R) : Prop :=
  (∃ e s', zremrangebyscore c key 0 (now - seconds win) s = (Raise e, s'))
  ∨ (∃ n s1 e s', zremrangebyscore c key 0 (now - seconds win) s = (Ok n, s1)
                  ∧ zrangebyscore c key (now - seconds win) now s1 = (Raise e, s'))
  ∨ (∃ n s1 requests s' text,
       zremrangebyscore c key 0 (now - seconds win) s = (Ok n, s1)
       ∧ zrangebyscore c key (now - seconds win) now s1 = (Ok requests, s')
       ∧ StrOther text ∈ requests).

(** * The embedding client ([chatbot/gemini_embeddings.py])

    A text is the list of its code points.  A float of an embedding is a
    value of a type [F] with a zero; nothing is computed on it.  The
    embedding service is an object with a state of its own that answers a
    request with an embedding or raises; the requests it was sent and the
    durations of the calls of [time.sleep], in clock ticks, are recorded
    beside it: the pauses of [embed_documents] and the waits of the retry
    decorator between two attempts.  Log messages are left out. *)

Module Gemini.

(** A call of [genai.embed_content(model=, content=, task_type=)]. *)
Record Request := {
  req_model : string;
  req_content : list N;
  req_task_type : string
}.

(** The state of the service, the requests made so far, and the durations
    of the calls of [time.sleep] made so far. *)
Record State (V : Type) := {
  server : V;
  requests : list Request;
  sleeps : list Z
}.
Arguments server {V} _.
Arguments requests {V} _.
Arguments sleeps {V} _.

(** The attributes of a [GeminiEmbeddings] object. *)
Record t (F : Type) := {
  model_name : string;
  task_type : string;
  max_retries : Z;
  retry_delay : F
}.
Arguments model_name {F} _.
Arguments task_type {F} _.
Arguments max_retries {F} _.
Arguments retry_delay {F} _.

Definition M (V A : Type) : Type := State V → Result A * State V.

Definition ret {V A} (a : A) : M V A := fun g => (Ok a, g).

Definition raise {V A} (e : exn) : M V A := fun g => (Raise e, g).

Definition bind {V A B} (m : M V A) (k : A → M V B) : M V B :=
  fun g =>
    match m g with
    | (Ok a, g') => k a g'
    | (Raise e, g') => (Raise e, g')
    end.

Notation "'let+' x ':=' m 'in' k" := (bind m (fun x => k))
  (at level 10, x pattern, m at level 100, k at level 200).

(** [try: m except Exception as e: h e]. *)
Definition try_except {V A} (m : M V A) (h : exn → M V A) : M V A :=
  fun g =>
    match m g with
    | (Ok a, g') => (Ok a, g')
    | (Raise e, g') => h e g'
    end.

(** [time.sleep(d)], for a duration of [d] ticks. *)
Definition time_sleep {V} (d : Z) : M V unit :=
  fun g => (Ok tt, {| server := server g;
                      requests := requests g;
                      sleeps := sleeps g ++ [d] |}).

(** [wait_exponential(multiplier, min, max)] of tenacity: the seconds to
    wait after the attempt number [attempt_number] (from 1) has failed. *)
Definition wait_exponential (multiplier min max : Z) (attempt_number : Z) : Z :=
  Z.max (Z.max 0 min) (Z.min (multiplier * 2 ^ (attempt_number - 1)) max).

(** The loop of the decorator from the attempt [attempt_number], with
    [retries] further attempts allowed after it: when the function raises
    and an attempt is left, the decorator sleeps for [wait attempt_number]
    seconds and calls the function again. *)
Fixpoint retry_from {V A} (wait : Z → Z) (attempt_number : Z) (retries : nat)
    (f : M V A) : M V A :=
  fun g =>
    match f g with
    | (Ok a, g') => (Ok a, g')
    | (Raise e, g') =>
        match retries with
        | O => (Raise e, g')
        | S n =>
            let (_, g'') := time_sleep (seconds (wait attempt_number)) g' in
            retry_from wait (attempt_number + 1) n f g''
        end
    end.

(** The decorator [@retry(stop=stop_after_attempt(n), wait=wait,
    reraise=True)]: the function is called again after an exception, with
    a wait in between, until it returns or has been called [n] times; the
    exception of the last call is raised. *)
Definition retry {V A} (stop_after_attempt : nat) (wait : Z → Z) (f : M V A) : M V A :=
  retry_from wait 1 (stop_after_attempt - 1) f.

(** [not x] for a string or a list. *)
Definition falsy {A} (x : list A) : bool :=
  match x with
  | [] => true
  | _ => false
  end.

(** [a or b] for an optional string [a]: [None] and the empty string are
    false. *)
Definition py_or (a : option string) (b : string) : string :=
  match a with
  | Some EmptyString | None => b
  | Some s => s
  end.

(** The code points of a literal whose characters are ASCII. *)
Definition code_points (s : string) : list N :=
  Ascii.N_of_ascii <$> String.list_ascii_of_string s.

Section GeminiEmbeddings.
Context {V F : Type}.

(** [0.0]. *)
Variable zero : F.

(** [str.isspace] on one code point: the table of the white space of
    Unicode. *)
Variable isspace : N → bool.

(** The service: [genai.embed_content(...)["embedding"]] from the state of
    the service, or the exception it raises. *)
Variable embed_content : string → list N → string → V → Result (list F) * V.

Fixpoint lstrip (text : list N) : list N :=
  match text with
  | [] => []
  | ch :: rest => if isspace ch then lstrip rest else text
  end.

(** [text.strip()]. *)
Definition strip (text : list N) : list N :=
  reverse (lstrip (reverse (lstrip text))).

Definition call_embed_content (model : string) (content : list N) (task : string)
    : M V (list F) :=
  fun g =>
    let (r, s) := embed_content model content task (server g) in
    (r, {| server := s;
           requests := requests g ++ [{| req_model := model;
                                         req_content := content;
                                         req_task_type := task |}];
           sleeps := sleeps g |}).

(** The body of [_embed_text]: one attempt. *)
Definition _embed_text_attempt (self : t F) (text : list N) (task : option string)
    : M V (list F) :=
  if falsy text || falsy (strip text) then
    ret (replicate 768 zero)
  else
    try_except
      (let text := if 20000 <? Z.of_nat (length text) then take (Z.to_nat 20000) text
                   else text in
       let+ embedding :=
         call_embed_content (model_name self) text (py_or task (task_type self)) in
       if falsy embedding then raise (ValueError "Empty embedding received")
       else ret embedding)
      (fun e => raise e).

(** [_embed_text], under [@retry(stop=stop_after_attempt(3),
    wait=wait_exponential(multiplier=1, min=4, max=10), reraise=True)]. *)
Definition _embed_text (self : t F) (text : list N) (task : option string)
    : M V (list F) :=
  retry 3 (wait_exponential 1 4 10) (_embed_text_attempt self text task).

(** The body of the loop of [embed_documents], for the text at index [i],
    with the embeddings gathered so far. *)
Definition embed_step (self : t F) (i : Z) (text : list N)
    (embeddings : list (list F)) : M V (list (list F)) :=
  try_except
    (let+ embedding := _embed_text self text (Some "retrieval_document") in
     let embeddings := embeddings ++ [embedding] in
     let+ _ := if (0 <? i) && (i mod 10 =? 0) then time_sleep 100000 else ret tt in
     ret embeddings)
    (fun e => ret (embeddings ++ [replicate 768 zero])).

(** The loop of [embed_documents] from index [i]. *)
Fixpoint embed_loop (self : t F) (i : Z) (texts : list (list N))
    (embeddings : list (list F)) : M V (list (list F)) :=
  match texts with
  | [] => ret embeddings
  | text :: rest =>
      let+ embeddings := embed_step self i text embeddings in
      embed_loop self (i + 1) rest embeddings
  end.

Definition embed_documents (self : t F) (texts : list (list N)) : M V (list (list F)) :=
  if falsy texts then ret []
  else embed_loop self 0 texts [].

Definition embed_query (self : t F) (text : list N) : M V (list F) :=
  try_except
    (let+ embedding := _embed_text self text (Some "retrieval_query") in
     ret embedding)
    (fun e => raise e).

Definition get_embedding_dimension (self : t F) : Z := 768.

Definition health_check (self : t F) : M V bool :=
  try_except
    (let+ test_embedding := _embed_text self (code_points "Health check test") None in
     ret (0 <? Z.of_nat (length test_embedding)))
    (fun e => ret false).

End GeminiEmbeddings.

End Gemini.

(** A text with no character that is not white space: the empty text
    included. *)
Definition blank (isspace : N → bool) (text : list N) : Prop :=
  Forall (fun ch => isspace ch = true) text.

(** The request [_embed_text] makes for a text: at most its first 20000
    code points. *)
Definition request_for {F} (self : Gemini.t F) (text : list N) (task : option string)
    : Gemini.Request :=
  {| Gemini.req_model := Gemini.model_name self;
     Gemini.req_content := take (Z.to_nat 20000) text;
     Gemini.req_task_type := Gemini.py_or task (Gemini.task_type self) |}.

(** A service that is down: every request raises. *)
Definition service_down (model : string) (content : list N) (task : string) (s : unit)
    : Result (list Z) * unit :=
  (Raise (BackendError "service unavailable"), s).

(** A service that answers a request with the code points of its content,
    for the examples. *)
Definition echo_service (model : string) (content : list N) (task : string) (s : unit)
    : Result (list Z) * unit :=
  (Ok (Z.of_N <$> content), s).

(** White space, for the examples: the space character only. *)
Definition only_space (ch : N) : bool := (ch =? 32)%N.

Definition default_embeddings : Gemini.t Z :=
  {| Gemini.model_name := "models/embedding-001";
     Gemini.task_type := "retrieval_document";
     Gemini.max_retries := 3;
     Gemini.retry_delay := 1 |}.

Definition fresh_service : Gemini.State unit :=
  {| Gemini.server := tt; Gemini.requests := []; Gemini.sleeps := [] |}.

(** * Session histories ([chatbot/main.py])

    The session functions of [main.py], over the in-memory sessions, the
    heap of [ChatMessageHistory] objects and the state of the Redis server
    of the sessions.  What [json.loads] makes of a string, what
    [json.dumps] writes and what the message classes accept as content
    belong to libraries and are parameters. *)

Module Sessions.

(** A value read by [json.loads]. *)
#[warnings="-register-all"]
Inductive Json :=
  | JNull
  | JBool (b : bool)
  | JNumber (repr : string)
  | JString (s : string)
  | JArray (items : list Json)
  | JObject (fields : list (string * Json)).

(** [HumanMessage(content=...)] and [AIMessage(content=...)]. *)
Inductive Message :=
  | HumanMessage (content : Json)
  | AIMessage (content : Json).

Definition content (msg : Message) : Json :=
  match msg with
  | HumanMessage c | AIMessage c => c
  end.

(** The exceptions of this part: those of the limiter, and the [TypeError]
    and the other errors of the libraries. *)
Inductive error :=
  | Exn (e : exn)
  | TypeError (msg : string)
  | LibraryError (msg : string).

Inductive Res (A : Type) :=
  | Done (a : A)
  | Fail (e : error).
Arguments Done {A} a.
Arguments Fail {A} e.

(** The client of the Redis server of the sessions, over a server state
    [V]; every command may raise. *)
Record Client (V : Type) := {
  get : string → V → Res (option string) * V;
  setex : string → Z → string → V → Res unit * V;
  delete : string → V → Res Z * V;
  keys : string → V → Res (list string) * V;
  lpush : string → string → V → Res Z * V
}.
Arguments get {V} _ _ _.
Arguments setex {V} _ _ _ _ _.
Arguments delete {V} _ _ _.
Arguments keys {V} _ _ _.
Arguments lpush {V} _ _ _ _.

Record State (V : Type) := {
  memory_sessions : gmap string nat;   (* session id -> history object *)
  histories : gmap nat (list Message); (* the messages of each history object *)
  next_history : nat;                  (* the next unused location *)
  server : V                           (* the state of the Redis server *)
}.
Arguments memory_sessions {V} _.
Arguments histories {V} _.
Arguments next_history {V} _.
Arguments server {V} _.

Definition M (V A : Type) : Type := State V → Res A * State V.

Definition ret {V A} (a : A) : M V A := fun st => (Done a, st).

Definition raise {V A} (e : error) : M V A := fun st => (Fail e, st).

Definition bind {V A B} (m : M V A) (k : A → M V B) : M V B :=
  fun st =>
    match m st with
    | (Done a, st') => k a st'
    | (Fail e, st') => (Fail e, st')
    end.

Notation "'let!' x ':=' m 'in' k" := (bind m (fun x => k))
  (at level 10, x pattern, m at level 100, k at level 200).

(** [try: m except Exception as e: h e]. *)
Definition try_except {V A} (m : M V A) (h : error → M V A) : M V A :=
  fun st =>
    match m st with
    | (Done a, st') => (Done a, st')
    | (Fail e, st') => h e st'
    end.

Definition lift {V A} (r : Res A) : M V A := fun st => (r, st).

Definition redis_call {V A} (op : V → Res A * V) : M V A :=
  fun st =>
    let (r, s) := op (server st) in
    (r, {| memory_sessions := memory_sessions st;
           histories := histories st;
           next_history := next_history st;
           server := s |}).

(** [ChatMessageHistory()]: a new history object, without messages. *)
Definition new_history {V} : M V nat :=
  fun st =>
    let h := next_history st in
    (Done h, {| memory_sessions := memory_sessions st;
                histories := <[h := []]> (histories st);
                next_history := S h;
                server := server st |}).

(** [history.messages]. *)
Definition messages {V} (h : nat) : M V (list Message) :=
  fun st => (Done (histories st !!! h), st).

(** [history.add_message(msg)]: in place. *)
Definition add_message {V} (h : nat) (msg : Message) : M V unit :=
  fun st =>
    (Done tt, {| memory_sessions := memory_sessions st;
                 histories := <[h := (histories st !!! h) ++ [msg]]> (histories st);
                 next_history := next_history st;
                 server := server st |}).

(** [memory_sessions[session_id] = h]. *)
Definition sessions_setitem {V} (session_id : string) (h : nat) : M V unit :=
  fun st =>
    (Done tt, {| memory_sessions := <[session_id := h]> (memory_sessions st);
                 histories := histories st;
                 next_history := next_history st;
                 server := server st |}).

(** [del memory_sessions[session_id]]. *)
Definition sessions_delitem {V} (session_id : string) : M V unit :=
  fun st =>
    match memory_sessions st !! session_id with
    | Some _ =>
        (Done tt, {| memory_sessions := base.delete session_id (memory_sessions st);
                     histories := histories st;
                     next_history := next_history st;
                     server := server st |})
    | None => (Fail (Exn (KeyError session_id)), st)
    end.

(** [memory_sessions[session_id]]. *)
Definition sessions_getitem {V} (session_id : string) : M V nat :=
  fun st =>
    match memory_sessions st !! session_id with
    | Some h => (Done h, st)
    | None => (Fail (Exn (KeyError session_id)), st)
    end.

(** [session_id in memory_sessions]. *)
Definition sessions_contains {V} (session_id : string) : M V bool :=
  fun st => (Done (bool_decide (is_Some (memory_sessions st !! session_id))), st).

(** [for msg in v]: the items of a list, the keys of a dict, the characters
    of a string; nothing else can be iterated over. *)
Definition py_iter (v : Json) : Res (list Json) :=
  match v with
  | JArray items => Done items
  | JObject fields => Done (JString <$> fields.*1)
  | JString s =>
      Done ((fun a => JString (String a EmptyString)) <$> String.list_ascii_of_string s)
  | _ => Fail (TypeError "object is not iterable")
  end.

Fixpoint assoc (k : string) (fields : list (string * Json)) : option Json :=
  match fields with
  | [] => None
  | (k', v) :: rest => if decide (k = k') then Some v else assoc k rest
  end.

(** [v[k]] for a string [k]: a dict has the key or raises [KeyError],
    nothing else takes a string index. *)
Definition py_getitem (v : Json) (k : string) : Res Json :=
  match v with
  | JObject fields =>
      match assoc k fields with
      | Some x => Done x
      | None => Fail (Exn (KeyError k))
      end
  | _ => Fail (TypeError "indices must be integers")
  end.

(** [v == "human"]. *)
Definition is_human (v : Json) : bool :=
  match v with
  | JString s => bool_decide (s = "human")
  | _ => false
  end.

Section Sessions.
Context {V : Type}.

(** [redis_client] of [main.py]: [None] when the connection probe failed. *)
Variable redis_client : option (Client V).

(** [json.loads] and [json.dumps]. *)
Variable json_loads : string → Res Json.
Variable json_dumps : Json → string.

(** What a message class makes of the content it is given: the content it
    stores, or the error of its validation. *)
Variable validate_content : Json → Res Json.

(** The loop of [get_session_history] over the decoded messages. *)
Fixpoint add_decoded (history : nat) (messages_data : list Json) : M V unit :=
  match messages_data with
  | [] => ret tt
  | msg :: rest =>
      let! type := lift (py_getitem msg "type") in
      let! _ :=
        if is_human type then
          let! c := lift (py_getitem msg "content") in
          let! c := lift (validate_content c) in
          add_message history (HumanMessage c)
        else
          let! c := lift (py_getitem msg "content") in
          let! c := lift (validate_content c) in
          add_message history (AIMessage c) in
      add_decoded history rest
  end.

(** The first part of [get_session_history]: the history read from Redis,
    or [None] when the function goes on to the sessions in memory. *)
Definition history_from_redis (session_id : string) : M V (option nat) :=
  match redis_client with
  | Some c =>
      try_except
        (let! history_data := redis_call (get c ("session:" +:+ session_id)) in
         match history_data with
         | Some (String a s) =>
             let! messages_data := lift (json_loads (String a s)) in
             let! history := new_history in
             let! items := lift (py_iter messages_data) in
             let! _ := add_decoded history items in
             ret (Some history)
         | _ => ret None
         end)
        (fun e => ret None)
  | None => ret None
  end.

Definition get_session_history (session_id : string) : M V nat :=
  let! found := history_from_redis session_id in
  match found with
  | Some history => ret history
  | None =>
      let! present := sessions_contains session_id in
      let! _ :=
        if present then ret tt
        else
          let! h := new_history in
          sessions_setitem session_id h in
      sessions_getitem session_id
  end.

(** [{"type": ..., "content": msg.content}]. *)
Definition message_data (msg : Message) : Json :=
  JObject [("type", JString (match msg with HumanMessage _ => "human" | AIMessage _ => "ai" end));
           ("content", content msg)].

Definition save_session_history (session_id : string) (history : nat) : M V unit :=
  match redis_client with
  | Some c =>
      try_except
        (let! msgs := messages history in
         let messages_data := message_data <$> msgs in
         redis_call (setex c ("session:" +:+ session_id) 3600
                       (json_dumps (JArray messages_data))))
        (fun e => ret tt)
  | None => sessions_setitem session_id history
  end.

(** The reply of [clear_session]: its [status] and [message]. *)
Definition clear_session (session_id : string) : M V (string * string) :=
  try_except
    (let! _ :=
       match redis_client with
       | Some c =>
           let! _ := redis_call (delete c ("session:" +:+ session_id)) in ret tt
       | None => ret tt
       end in
     let! present := sessions_contains session_id in
     let! _ := if present then sessions_delitem session_id else ret tt in
     ret ("success", "Session " +:+ session_id +:+ " cleared"))
    (fun e => raise (Exn (HTTPException 500 (DetailText "Error clearing session")))).

(** [get_analytics]: the number it reports as [total_active_sessions]. *)
Definition get_analytics : M V Z :=
  try_except
    (let! total_sessions :=
       (fun st => (Done (Z.of_nat (size (memory_sessions st))), st)) in
     match redis_client with
     | Some c =>
         let! found := redis_call (keys c "session:*") in
         ret (total_sessions + Z.of_nat (length found))
     | None => ret total_sessions
     end)
    (fun e => raise (Exn (HTTPException 500 (DetailText "Error getting analytics")))).

End Sessions.

(** The messages of the session kept in memory under [session_id]. *)
Definition session_messages {V} (st : State V) (session_id : string)
    : option (list Message) :=
  (fun h => histories st !!! h) <$> memory_sessions st !! session_id.

(** The sessions in memory refer to histories that exist. *)
Definition wf {V} (st : State V) : Prop :=
  ∀ session_id h, memory_sessions st !! session_id = Some h → (h < next_history st)%nat.

End Sessions.

(** ** Instances for the examples *)

(** A server that keeps the strings it is given; [keys] and [lpush] are not
    used in the examples. *)
Definition store_client : Sessions.Client (gmap string string) :=
  {| Sessions.get := fun k s => (Sessions.Done (s !! k), s);
     Sessions.setex := fun k _ v s => (Sessions.Done tt, <[k := v]> s);
     Sessions.delete := fun k s =>
       (Sessions.Done (match s !! k with Some _ => 1 | None => 0 end), base.delete k s);
     Sessions.keys := fun _ s => (Sessions.Fail (Sessions.LibraryError "not used"), s);
     Sessions.lpush := fun _ _ s => (Sessions.Fail (Sessions.LibraryError "not used"), s) |}.

(** A codec for histories of one message with a text content. *)
Definition toy_dumps (j : Sessions.Json) : string :=
  match j with
  | Sessions.JArray
      [Sessions.JObject [(_, Sessions.JString type); (_, Sessions.JString c)]] =>
      type +:+ ":" +:+ c
  | _ => "[]"
  end.

Definition toy_loads (s : string) : Sessions.Res Sessions.Json :=
  if decide (s = "human:hello") then
    Sessions.Done
      (Sessions.JArray
         [Sessions.message_data (Sessions.HumanMessage (Sessions.JString "hello"))])
  else Sessions.Done (Sessions.JArray []).

Definition accept_content (c : Sessions.Json) : Sessions.Res Sessions.Json :=
  Sessions.Done c.

(** A state with one history, of one message, and no session. *)
Definition one_history : Sessions.State (gmap string string) :=
  {| Sessions.memory_sessions := ∅;
     Sessions.histories := {[ 0%nat := [Sessions.HumanMessage (Sessions.JString "hello")] ]};
     Sessions.next_history := 1;
     Sessions.server := ∅ |}.

(** That state after the history was saved under the session [s1]. *)
Definition one_saved : Sessions.State (gmap string string) :=
  snd (Sessions.save_session_history (Some store_client) toy_dumps "s1" 0 one_history).

(** * Properties *)

(** ** Running a function step by step *)

Lemma bind_ok {R A B} (m : Py R A) (k : A → Py R B) w a w' :
  m w = (Ok a, w') → bind m k w = k a w'.
Proof. intros H. unfold bind. rewrite H. reflexivity. Qed.

Lemma bind_raise {R A B} (m : Py R A) (k : A → Py R B) w e w' :
  m w = (Raise e, w') → bind m k w = (Raise e, w').
Proof. intros H. unfold bind. rewrite H. reflexivity. Qed.

(** The fetch on the fallback store: the key now holds a new list, the
    in-window records of the old one, and that very list is returned. *)
Lemma get_requests_from_memory_spec {R} (w : World R) key win now :
  ∃ l w',
    _get_requests_from_memory key win now w = (Ok l, w')
    ∧ memory_store w' !! key = Some l
    ∧ heap w' !! l = Some (filter (fun t => now - seconds win < t) (records w key))
    ∧ redis w' = redis w.
Proof.
  unfold _get_requests_from_memory, records, defaultdict_getitem, bind.
  destruct (memory_store w !! key) as [l0|] eqn:E; simpl.
  - do 2 eexists. rewrite lookup_insert_eq. split; [reflexivity|]. simpl.
    rewrite !lookup_insert_eq. auto.
  - do 2 eexists. rewrite lookup_insert_eq.
    split; [reflexivity|]. simpl.
    rewrite !lookup_insert_eq. rewrite lookup_total_insert_eq. auto.
Qed.

Lemma len_eq {R} (w : World R) l xs :
  heap w !! l = Some xs → len (Stored l) w = (Ok (Z.of_nat (length xs)), w).
Proof.
  intros H. unfold len, bind, list_items, ret.
  by rewrite (lookup_total_correct _ _ _ H).
Qed.

Lemma len_fresh {R} (w : World R) (xs : list pyfloat) :
  len (Fresh xs) w = (Ok (Z.of_nat (length xs)), w).
Proof. reflexivity. Qed.

(** [min] on a list of timestamps is their least. *)
Lemma float_min_finite (xs : list Z) :
  float_min (Finite <$> xs)
  = match list_min xs with
    | Ok oldest => Ok (Finite oldest)
    | Raise e => Raise e
    end.
Proof.
  destruct xs as [|x xs]; [reflexivity|]. cbn [fmap list_fmap float_min list_min].
  f_equal. revert x. induction xs as [|y ys IH]; intros x; [reflexivity|].
  cbn [fmap list_fmap foldl foldr float_lt].
  assert (Hswap : ∀ a b zs, foldr Z.min (Z.min a b) zs = Z.min b (foldr Z.min a zs)).
  { intros a b zs. induction zs as [|z zs IHz]; simpl; lia. }
  destruct (Z.ltb_spec y x) as [Hlt|Hge].
  - rewrite (IH y). f_equal.
    rewrite <- (Z.min_r x y) at 1 by lia. rewrite Hswap.
    pose proof (Hswap x y ys) as H. rewrite Z.min_r in H by lia. lia.
  - rewrite (IH x). f_equal.
    pose proof (Hswap x y ys) as H. rewrite Z.min_l in H by lia. lia.
Qed.

Lemma py_min_eq {R} (w : World R) l xs :
  heap w !! l = Some xs →
  py_min (Stored l) w
  = (match list_min xs with
     | Ok oldest => Ok (Finite oldest)
     | Raise e => Raise e
     end, w).
Proof.
  intros H. unfold py_min, bind, list_items, lift.
  rewrite (lookup_total_correct _ _ _ H). by rewrite float_min_finite.
Qed.

(** The fetch of a call on the fallback store: the stored list itself. *)
Lemma fetch_stored {R} (w w' : World R) key win now l :
  _get_requests_from_memory key win now w = (Ok l, w') →
  (let* l := _get_requests_from_memory key win now in ret (Stored l)) w
  = (Ok (Stored l), w').
Proof. intros H. unfold bind, ret. by rewrite H. Qed.

(** The fetch of a call on the shared backend: a list of the caller. *)
Lemma fetch_fresh {R} (c : RedisClient R) (w w' : World R) key win now xs :
  _get_requests_from_redis c key win now w = (Ok xs, w') →
  (let* xs := _get_requests_from_redis c key win now in ret (Fresh xs)) w
  = (Ok (Fresh xs), w').
Proof. intros H. unfold bind, ret. by rewrite H. Qed.

Lemma add_request_to_memory_eq {R} (w : World R) key l xs ts :
  memory_store w !! key = Some l →
  heap w !! l = Some xs →
  ∃ w', _add_request_to_memory key ts w = (Ok tt, w')
        ∧ memory_store w' !! key = Some l
        ∧ heap w' !! l = Some (xs ++ [ts])
        ∧ redis w' = redis w.
Proof.
  intros Hk Hl. unfold _add_request_to_memory, bind, defaultdict_getitem, list_append.
  rewrite Hk. eexists. split; [reflexivity|]. simpl.
  rewrite lookup_insert_eq, (lookup_total_correct _ _ _ Hl). auto.
Qed.

Lemma records_eq {R} (w : World R) key l xs :
  memory_store w !! key = Some l → heap w !! l = Some xs → records w key = xs.
Proof.
  intros Hk Hl. unfold records. rewrite Hk. by apply lookup_total_correct.
Qed.

(** ** The policy lookup *)

Lemma get_rate_limit_config_eq ut :
  _get_rate_limit_config ut
  = Ok (default {| limit := 20; window := 60 |} (RATE_LIMITS !! ut)).
Proof. reflexivity. Qed.

Lemma RATE_LIMITS_lookup k c :
  RATE_LIMITS !! k = Some c →
  c = {| limit := 20; window := 60 |}
  ∨ c = {| limit := 100; window := 60 |}
  ∨ c = {| limit := 500; window := 60 |}.
Proof.
  unfold RATE_LIMITS. intros H.
  apply lookup_insert_Some in H as [ [_ Hc] | [_ H] ]; [subst c; auto|].
  apply lookup_insert_Some in H as [ [_ Hc] | [_ H] ]; [subst c; auto|].
  apply lookup_insert_Some in H as [ [_ Hc] | [_ H] ]; [subst c; auto|].
  by rewrite lookup_empty in H.
Qed.

Lemma config_positive ut cfg :
  _get_rate_limit_config ut = Ok cfg → 20 ≤ limit cfg ∧ window cfg = 60.
Proof.
  rewrite get_rate_limit_config_eq. intros [= <-].
  destruct (RATE_LIMITS !! ut) as [c|] eqn:E; simpl; [|lia].
  apply RATE_LIMITS_lookup in E as [ -> | [ -> | -> ] ]; simpl; lia.
Qed.

(** ** The limiter on the fallback store *)

(** An admission on the fallback store.  The list returned by the fetch is
    the list of the store, so the record of this request is already in it
    when [remaining] is computed. *)
Lemma check_rate_limit_memory_admit {R} (w : World R) uid ut cfg t0 t1 :
  _get_rate_limit_config ut = Ok cfg →
  Z.of_nat (length (in_window (window cfg) t1 (records w ("rate_limit:" +:+ uid))))
    < limit cfg →
  ∃ w',
    check_rate_limit None uid ut t0 t1 w
    = (Ok {| Admission.allowed := true;
             Admission.limit := limit cfg;
             Admission.remaining :=
               limit cfg
               - Z.of_nat (length (in_window (window cfg) t1
                                     (records w ("rate_limit:" +:+ uid)) ++ [t0]))
               - 1;
             Admission.reset_time := t0 + seconds (window cfg) |}, w')
    ∧ records w' ("rate_limit:" +:+ uid)
      = in_window (window cfg) t1 (records w ("rate_limit:" +:+ uid)) ++ [t0]
    ∧ redis w' = redis w.
Proof.
  intros Hcfg Hlt. unfold check_rate_limit.
  erewrite bind_ok by (unfold lift; rewrite Hcfg; reflexivity).
  destruct (get_requests_from_memory_spec w ("rate_limit:" +:+ uid) (window cfg) t1)
    as (l & w1 & Hrun & Hk & Hl & Hr).
  fold (in_window (window cfg) t1 (records w ("rate_limit:" +:+ uid))) in Hl.
  erewrite bind_ok by (apply fetch_stored; exact Hrun).
  erewrite bind_ok by (apply len_eq; exact Hl).
  destruct (Z.leb_spec (limit cfg)
              (Z.of_nat (length (in_window (window cfg) t1
                                   (records w ("rate_limit:" +:+ uid)))))) as [Hge|_];
    [lia|].
  destruct (add_request_to_memory_eq w1 _ _ _ t0 Hk Hl) as (w2 & Hadd & Hk2 & Hl2 & Hr2).
  erewrite bind_ok by exact Hadd.
  erewrite bind_ok by (apply len_eq; exact Hl2).
  exists w2. split; [reflexivity|]. split; [by apply (records_eq _ _ l)|congruence].
Qed.

(** The store after a fetch holds the in-window records of the key. *)
Lemma records_after_fetch {R} (w : World R) key win now :
  records (snd (_get_requests_from_memory key win now w)) key
  = in_window win now (records w key).
Proof.
  destruct (get_requests_from_memory_spec w key win now)
    as (l & w1 & Hrun & Hk & Hl & Hr).
  rewrite Hrun. simpl. by apply (records_eq _ _ l).
Qed.

(** A rejection on the fallback store: the world is left as the fetch left
    it. *)
Lemma check_rate_limit_memory_reject {R} (w : World R) uid ut cfg t0 t1 oldest :
  _get_rate_limit_config ut = Ok cfg →
  limit cfg
    ≤ Z.of_nat (length (in_window (window cfg) t1 (records w ("rate_limit:" +:+ uid)))) →
  list_min (in_window (window cfg) t1 (records w ("rate_limit:" +:+ uid))) = Ok oldest →
  check_rate_limit None uid ut t0 t1 w
  = (Raise (HTTPException HTTP_429_TOO_MANY_REQUESTS
       (DetailRate
          {| Rejected.error := "Rate limit exceeded";
             Rejected.limit := limit cfg;
             Rejected.window := window cfg;
             Rejected.current_usage :=
               Z.of_nat (length (in_window (window cfg) t1
                                   (records w ("rate_limit:" +:+ uid))));
             Rejected.reset_time := oldest + seconds (window cfg);
             Rejected.retry_after :=
               py_int (oldest + seconds (window cfg) - t0) |})),
     snd (_get_requests_from_memory ("rate_limit:" +:+ uid) (window cfg) t1 w)).
Proof.
  intros Hcfg Hge Hmin. unfold check_rate_limit.
  erewrite bind_ok by (unfold lift; rewrite Hcfg; reflexivity).
  destruct (get_requests_from_memory_spec w ("rate_limit:" +:+ uid) (window cfg) t1)
    as (l & w1 & Hrun & Hk & Hl & Hr).
  fold (in_window (window cfg) t1 (records w ("rate_limit:" +:+ uid))) in Hl.
  erewrite bind_ok by (apply fetch_stored; exact Hrun).
  erewrite bind_ok by (apply len_eq; exact Hl).
  destruct (Z.leb_spec (limit cfg)
              (Z.of_nat (length (in_window (window cfg) t1
                                   (records w ("rate_limit:" +:+ uid)))))) as [_|Hlt];
    [|lia].
  erewrite bind_ok by (rewrite (py_min_eq _ _ _ Hl), Hmin; reflexivity).
  erewrite bind_ok by (apply len_eq; exact Hl).
  rewrite Hrun. reflexivity.
Qed.

(** [min] of a list that is not empty. *)
Lemma list_min_nonempty xs :
  (0 < length xs)%nat → ∃ m, list_min xs = Ok m ∧ m ∈ xs ∧ Forall (fun x => m ≤ x) xs.
Proof.
  destruct xs as [|x xs]; simpl; [lia|]. intros _.
  exists (foldr Z.min x xs). split; [reflexivity|].
  induction xs as [|y ys IH]; simpl.
  - split; [by left|]. constructor; [lia|constructor].
  - destruct IH as [Hin Hall].
    apply Forall_cons in Hall as [Hx Hys].
    split.
    + destruct (Z.min_spec y (foldr Z.min x ys)) as [[_ ->]|[_ ->]].
      * right. by left.
      * apply elem_of_cons in Hin as [->|Hin]; [by left|right; by right].
    + constructor; [lia|]. constructor; [lia|].
      eapply Forall_impl; [exact Hys|]. simpl. intros; lia.
Qed.

(** ** The limiter on the shared backend *)

(** The fetch from the backend never raises: it returns a list of its own
    and touches the server only, whatever the client does. *)
Lemma get_requests_from_redis_total {R} (c : RedisClient R) (w : World R) key win now :
  ∃ xs s, _get_requests_from_redis c key win now w = (Ok xs, set_redis w s).
Proof.
  unfold _get_requests_from_redis, try_except, bind, redis_call, lift, ret.
  destruct (zremrangebyscore c key 0 (now - seconds win) (redis w)) as [[n|e] s1];
    simpl; [|by eexists _, _].
  destruct (zrangebyscore c key (now - seconds win) now s1) as [[reqs|e] s2];
    simpl; [|by eexists _, _].
  destruct (floats_of reqs) as [ts|e]; simpl; by eexists _, _.
Qed.

(** The record on the backend never raises, and touches the server only. *)
Lemma add_request_to_redis_total {R} (c : RedisClient R) (w : World R) key ts win :
  ∃ s, _add_request_to_redis c key ts win w = (Ok tt, set_redis w s).
Proof.
  unfold _add_request_to_redis, try_except, bind, redis_call, ret.
  destruct (zadd c key [(py_str ts, ts)] (redis w)) as [[n|e] s1];
    simpl; [|by eexists].
  destruct (expire c key win s1) as [[b|e] s2]; simpl; by eexists.
Qed.

(** [min] of a list of floats that is not empty is one of them. *)
Lemma float_min_nonempty (xs : list pyfloat) :
  (0 < length xs)%nat → ∃ m, float_min xs = Ok m ∧ m ∈ xs.
Proof.
  destruct xs as [|x xs]; simpl; [lia|]. intros _. eexists. split; [reflexivity|].
  assert (H : ∀ ys a, foldl (fun m y => if float_lt y m then y else m) a ys ∈ a :: ys).
  { induction ys as [|y ys IH]; intros a; simpl; [by left|].
    destruct (float_lt y a).
    - specialize (IH y). apply elem_of_cons in IH as [->|IH]; [right; by left|].
      right. by right.
    - specialize (IH a). apply elem_of_cons in IH as [->|IH]; [by left|].
      right. by right. }
  apply H.
Qed.

(** What a call on the shared backend returns for the list [xs] it has
    fetched, at the time [t0], under the policy [cfg]. *)
Lemma check_rate_limit_redis_spec {R} (c : RedisClient R) (w : World R)
    uid ut cfg t0 t1 :
  _get_rate_limit_config ut = Ok cfg →
  ∃ xs s1,
    _get_requests_from_redis c ("rate_limit:" +:+ uid) (window cfg) t1 w
    = (Ok xs, set_redis w s1)
    ∧ ((limit cfg ≤ Z.of_nat (length xs)
        ∧ ∃ oldest,
            float_min xs = Ok oldest
            ∧ check_rate_limit (Some c) uid ut t0 t1 w
              = (Raise
                   match float_add oldest (seconds (window cfg)) with
                   | Finite reset_time =>
                       HTTPException HTTP_429_TOO_MANY_REQUESTS
                         (DetailRate
                            {| Rejected.error := "Rate limit exceeded";
                               Rejected.limit := limit cfg;
                               Rejected.window := window cfg;
                               Rejected.current_usage := Z.of_nat (length xs);
                               Rejected.reset_time := reset_time;
                               Rejected.retry_after := py_int (reset_time - t0) |})
                   | PosInf | NegInf =>
                       OverflowError "cannot convert float infinity to integer"
                   | NaN => ValueError "cannot convert float NaN to integer"
                   end,
                 set_redis w s1))
       ∨ (Z.of_nat (length xs) < limit cfg
          ∧ ∃ s2,
              _add_request_to_redis c ("rate_limit:" +:+ uid) t0 (window cfg)
                (set_redis w s1)
              = (Ok tt, set_redis w s2)
              ∧ check_rate_limit (Some c) uid ut t0 t1 w
                = (Ok {| Admission.allowed := true;
                         Admission.limit := limit cfg;
                         Admission.remaining := limit cfg - Z.of_nat (length xs) - 1;
                         Admission.reset_time := t0 + seconds (window cfg) |},
                   set_redis w s2))).
Proof.
  intros Hcfg. unfold check_rate_limit.
  erewrite bind_ok by (unfold lift; rewrite Hcfg; reflexivity).
  destruct (get_requests_from_redis_total c w ("rate_limit:" +:+ uid) (window cfg) t1)
    as (xs & s1 & Hrun).
  exists xs, s1. split; [exact Hrun|].
  erewrite bind_ok by (apply fetch_fresh; exact Hrun).
  erewrite bind_ok by apply len_fresh.
  destruct (Z.leb_spec (limit cfg) (Z.of_nat (length xs))) as [Hge|Hlt].
  - left. split; [exact Hge|].
    destruct (float_min_nonempty xs) as (m & Hm & _).
    { apply config_positive in Hcfg. lia. }
    exists m. split; [exact Hm|].
    erewrite bind_ok by (cbn [py_min]; unfold lift; rewrite Hm; reflexivity).
    erewrite bind_ok by apply len_fresh.
    by destruct (float_add m (seconds (window cfg))).
  - right. split; [exact Hlt|].
    destruct (add_request_to_redis_total c (set_redis w s1)
                ("rate_limit:" +:+ uid) t0 (window cfg)) as (s2 & Hadd).
    exists s2. split; [exact Hadd|].
    erewrite bind_ok by exact Hadd.
    erewrite bind_ok by apply len_fresh.
    reflexivity.
Qed.

(** ** The window filter *)

Lemma in_window_in_window win t t' xs :
  t ≤ t' → in_window win t' (in_window win t xs) = in_window win t' xs.
Proof.
  intros Hle. unfold in_window. apply list_filter_filter_l. intros x. lia.
Qed.

Lemma in_window_all win now xs :
  Forall (fun t => now - seconds win < t) xs → in_window win now xs = xs.
Proof.
  unfold in_window. induction 1 as [|x xs Hx _ IH]; [reflexivity|].
  rewrite filter_cons_True by exact Hx. by rewrite IH.
Qed.

Lemma in_window_count win now xs t :
  now - seconds win < t →
  count_occ Z.eq_dec (in_window win now xs) t = count_occ Z.eq_dec xs t.
Proof.
  intros Ht. unfold in_window. induction xs as [|x xs IH]; [reflexivity|].
  rewrite filter_cons. destruct (decide (now - seconds win < x)) as [Hx|Hx]; simpl.
  - destruct (Z.eq_dec x t); by rewrite IH.
  - destruct (Z.eq_dec x t) as [->|_]; [lia|exact IH].
Qed.

(** One call on the fallback store, both outcomes. *)
Lemma check_rate_limit_memory_spec {R} (w : World R) uid ut cfg t0 t1 :
  _get_rate_limit_config ut = Ok cfg →
  let xs := in_window (window cfg) t1 (records w ("rate_limit:" +:+ uid)) in
  (limit cfg ≤ Z.of_nat (length xs)
   ∧ ∃ oldest,
       list_min xs = Ok oldest
       ∧ check_rate_limit None uid ut t0 t1 w
         = (Raise (HTTPException HTTP_429_TOO_MANY_REQUESTS
              (DetailRate
                 {| Rejected.error := "Rate limit exceeded";
                    Rejected.limit := limit cfg;
                    Rejected.window := window cfg;
                    Rejected.current_usage := Z.of_nat (length xs);
                    Rejected.reset_time := oldest + seconds (window cfg);
                    Rejected.retry_after :=
                      py_int (oldest + seconds (window cfg) - t0) |})),
            snd (_get_requests_from_memory ("rate_limit:" +:+ uid) (window cfg) t1 w)))
  ∨ (Z.of_nat (length xs) < limit cfg
     ∧ ∃ w',
         check_rate_limit None uid ut t0 t1 w
         = (Ok {| Admission.allowed := true;
                  Admission.limit := limit cfg;
                  Admission.remaining := limit cfg - Z.of_nat (length (xs ++ [t0])) - 1;
                  Admission.reset_time := t0 + seconds (window cfg) |}, w')
         ∧ records w' ("rate_limit:" +:+ uid) = xs ++ [t0]
         ∧ redis w' = redis w).
Proof.
  intros Hcfg xs.
  destruct (Z.le_gt_cases (limit cfg) (Z.of_nat (length xs))) as [Hge|Hlt].
  - left. split; [exact Hge|].
    destruct (list_min_nonempty xs) as (m & Hm & _).
    { apply config_positive in Hcfg. lia. }
    exists m. split; [exact Hm|].
    by apply check_rate_limit_memory_reject.
  - right. split; [exact Hlt|]. by apply check_rate_limit_memory_admit.
Qed.

(** The outcome of a call on the fallback store depends on the world only
    through the in-window records of the key. *)
Lemma check_rate_limit_memory_ext {R} (w w' : World R) uid ut cfg t0 t1 :
  _get_rate_limit_config ut = Ok cfg →
  in_window (window cfg) t1 (records w ("rate_limit:" +:+ uid))
  = in_window (window cfg) t1 (records w' ("rate_limit:" +:+ uid)) →
  fst (check_rate_limit None uid ut t0 t1 w) = fst (check_rate_limit None uid ut t0 t1 w')
  ∧ records (snd (check_rate_limit None uid ut t0 t1 w)) ("rate_limit:" +:+ uid)
    = records (snd (check_rate_limit None uid ut t0 t1 w')) ("rate_limit:" +:+ uid).
Proof.
  intros Hcfg Heq.
  destruct (check_rate_limit_memory_spec w uid ut cfg t0 t1 Hcfg)
    as [(Hge & m & Hm & Hrun)|(Hlt & w1 & Hrun & Hrec & _)];
  destruct (check_rate_limit_memory_spec w' uid ut cfg t0 t1 Hcfg)
    as [(Hge' & m' & Hm' & Hrun')|(Hlt' & w1' & Hrun' & Hrec' & _)];
  rewrite <- Heq in *; try lia; rewrite Hrun, Hrun'; simpl.
  - assert (m' = m) as -> by congruence.
    split; [reflexivity|]. rewrite !records_after_fetch. exact Heq.
  - split; [reflexivity|]. by rewrite Hrec, Hrec'.
Qed.

(** ** The peek *)

(** The peek on the fallback store. *)
Lemma get_rate_limit_info_memory {R} (w : World R) uid ut cfg tf ti :
  _get_rate_limit_config ut = Ok cfg →
  get_rate_limit_info None uid ut tf ti w
  = (Ok {| Info.limit := limit cfg;
           Info.remaining :=
             limit cfg
             - Z.of_nat (length (in_window (window cfg) tf
                                   (records w ("rate_limit:" +:+ uid))));
           Info.reset_time := ti + seconds (window cfg);
           Info.window := window cfg |},
     snd (_get_requests_from_memory ("rate_limit:" +:+ uid) (window cfg) tf w)).
Proof.
  intros Hcfg. unfold get_rate_limit_info.
  erewrite bind_ok by (unfold lift; rewrite Hcfg; reflexivity).
  destruct (get_requests_from_memory_spec w ("rate_limit:" +:+ uid) (window cfg) tf)
    as (l & w1 & Hrun & Hk & Hl & Hr).
  fold (in_window (window cfg) tf (records w ("rate_limit:" +:+ uid))) in Hl.
  erewrite bind_ok by (apply fetch_stored; exact Hrun).
  erewrite bind_ok by (apply len_eq; exact Hl).
  rewrite Hrun. reflexivity.
Qed.

(** The peek on the shared backend: the world is left as the fetch left
    it. *)
Lemma get_rate_limit_info_redis {R} (c : RedisClient R) (w : World R) uid ut cfg tf ti :
  _get_rate_limit_config ut = Ok cfg →
  ∃ xs s,
    _get_requests_from_redis c ("rate_limit:" +:+ uid) (window cfg) tf w
    = (Ok xs, set_redis w s)
    ∧ get_rate_limit_info (Some c) uid ut tf ti w
      = (Ok {| Info.limit := limit cfg;
               Info.remaining := limit cfg - Z.of_nat (length xs);
               Info.reset_time := ti + seconds (window cfg);
               Info.window := window cfg |},
         set_redis w s).
Proof.
  intros Hcfg. unfold get_rate_limit_info.
  erewrite bind_ok by (unfold lift; rewrite Hcfg; reflexivity).
  destruct (get_requests_from_redis_total c w ("rate_limit:" +:+ uid) (window cfg) tf)
    as (xs & s & Hrun).
  exists xs, s. split; [exact Hrun|].
  erewrite bind_ok by (apply fetch_fresh; exact Hrun).
  erewrite bind_ok by apply len_fresh.
  reflexivity.
Qed.

(** The outcome of a call on the shared backend is decided by the list it
    fetches. *)
Lemma check_rate_limit_redis_ext {R} (c : RedisClient R) (w w2 : World R)
    uid ut t0 t1 :
  (∀ cfg, _get_rate_limit_config ut = Ok cfg →
     fst (_get_requests_from_redis c ("rate_limit:" +:+ uid) (window cfg) t1 w2)
     = fst (_get_requests_from_redis c ("rate_limit:" +:+ uid) (window cfg) t1 w)) →
  fst (check_rate_limit (Some c) uid ut t0 t1 w2)
  = fst (check_rate_limit (Some c) uid ut t0 t1 w).
Proof.
  intros Hsame.
  destruct (_get_rate_limit_config ut) as [cfg|err] eqn:Hcfg;
    [|by rewrite get_rate_limit_config_eq in Hcfg].
  specialize (Hsame cfg eq_refl).
  destruct (check_rate_limit_redis_spec c w uid ut cfg t0 t1 Hcfg)
    as (xs & s1 & Hfetch & Hcases).
  destruct (check_rate_limit_redis_spec c w2 uid ut cfg t0 t1 Hcfg)
    as (xs2 & s2 & Hfetch2 & Hcases2).
  rewrite Hfetch, Hfetch2 in Hsame. injection Hsame as ->.
  destruct Hcases as [(Hge & m & Hm & ->)|(Hlt & s3 & _ & ->)];
    destruct Hcases2 as [(Hge2 & m2 & Hm2 & ->)|(Hlt2 & s4 & _ & ->)]; try lia.
  - assert (m2 = m) as -> by congruence. reflexivity.
  - reflexivity.
Qed.

(** The fetch from a sorted set: the members that the pruning leaves and
    that lie in the window, or the empty list when one of them is no float;
    on the server, the pruned members are gone and nothing else changes for
    the key. *)
Lemma get_requests_from_sorted_set {R} (c : RedisClient R)
    (view : R → string → list (RedisStr * Z)) (w : World R) key win now :
  sorted_set_server c view →
  ∃ s,
    _get_requests_from_redis c key win now w
    = (Ok match floats_of
                  ((filter (fun m => now - seconds win ≤ m.2 ≤ now)
                      (filter (fun m => ¬ (0 ≤ m.2 ≤ now - seconds win))
                         (view (redis w) key))).*1) with
          | Ok xs => xs
          | Raise _ => []
          end, set_redis w s)
    ∧ view s key = filter (fun m => ¬ (0 ≤ m.2 ≤ now - seconds win)) (view (redis w) key).
Proof.
  intros [Hrem Hrange].
  unfold _get_requests_from_redis, try_except, bind, redis_call, lift, ret.
  destruct (Hrem key 0 (now - seconds win) (redis w)) as (n & s1 & -> & Hv1).
  cbn [set_redis redis].
  destruct (Hrange key (now - seconds win) now s1) as (s2 & -> & Hv2).
  rewrite Hv1. cbn [set_redis redis memory_store heap next_loc].
  exists s2. split; [|by rewrite Hv2, Hv1].
  by destruct (floats_of _).
Qed.

Lemma zset_server_sorted_set : sorted_set_server zset_server zset_view.
Proof.
  split.
  - intros key lo hi s. eexists _, _. split; [reflexivity|].
    unfold zset_view.
    destruct (filter _ (default [] (s !! key))) as [|m kept];
      [by rewrite lookup_delete_eq|by rewrite lookup_insert_eq].
  - intros key lo hi s. exists s. split; reflexivity.
Qed.

(** ** A burst of admissions on the fallback store *)

Lemma run_checks_app {R} (rc : option (RedisClient R)) uid ut calls calls' (w : World R) :
  run_checks rc uid ut (calls ++ calls') w
  = (fst (run_checks rc uid ut calls w)
     ++ fst (run_checks rc uid ut calls' (snd (run_checks rc uid ut calls w))),
     snd (run_checks rc uid ut calls' (snd (run_checks rc uid ut calls w)))).
Proof.
  revert w. induction calls as [|[t0 t1] calls IH]; intros w; simpl.
  - by destruct (run_checks rc uid ut calls' w).
  - destruct (check_rate_limit rc uid ut t0 t1 w) as [r w1].
    rewrite IH. destruct (run_checks rc uid ut calls w1) as [rs w2]. simpl.
    by destruct (run_checks rc uid ut calls' w2).
Qed.

(** Calls that all see the records [pre] of the key in their window, and see
    each other's records, are admitted while the limit is not reached. *)
Lemma run_checks_memory_admits {R} uid ut cfg :
  _get_rate_limit_config ut = Ok cfg →
  ∀ calls (w : World R) pre,
    (∀ c, c ∈ calls →
          in_window (window cfg) c.2 (records w ("rate_limit:" +:+ uid)) = pre) →
    (∀ c c', c ∈ calls → c' ∈ calls → c'.2 - seconds (window cfg) < c.1) →
    Z.of_nat (length pre + length calls) ≤ limit cfg →
    fst (run_checks None uid ut calls w) = imap (fallback_admission cfg (length pre)) calls
    ∧ (calls ≠ [] →
       records (snd (run_checks None uid ut calls w)) ("rate_limit:" +:+ uid)
       = pre ++ calls.*1).
Proof.
  intros Hcfg. induction calls as [|[t0 t1] calls IH]; intros w pre Hpre Hnear Hlen.
  - split; [reflexivity|done].
  - assert (Hhead : in_window (window cfg) t1 (records w ("rate_limit:" +:+ uid)) = pre)
      by apply (Hpre (t0, t1)), list_elem_of_here.
    destruct (check_rate_limit_memory_admit w uid ut cfg t0 t1 Hcfg)
      as (w1 & Hrun & Hrec & _).
    { rewrite Hhead. simpl in Hlen. lia. }
    rewrite Hhead in Hrun, Hrec. simpl. rewrite Hrun.
    destruct (IH w1 (pre ++ [t0])) as [Hres Hfin].
    + intros c Hc. rewrite Hrec. apply in_window_all.
      apply Forall_app. split.
      * apply Forall_forall. intros t Ht.
        assert (Ht' : t ∈ in_window (window cfg) c.2 (records w ("rate_limit:" +:+ uid))).
        { rewrite Hpre; [exact Ht|by apply list_elem_of_further]. }
        unfold in_window in Ht'. by apply list_elem_of_filter in Ht' as [Ht' _].
      * apply Forall_singleton.
        apply (Hnear (t0, t1) c); [apply list_elem_of_here|by apply list_elem_of_further].
    + intros c c' Hc Hc'. apply Hnear; by apply list_elem_of_further.
    + rewrite length_app. simpl in *. lia.
    + destruct (run_checks None uid ut calls w1) as [rs w2] eqn:Hrest. simpl in *.
      split.
      * rewrite Hres. f_equal.
        -- unfold fallback_admission. simpl. do 2 f_equal.
           rewrite length_app. simpl. lia.
        -- apply imap_ext. intros i c _. unfold fallback_admission. simpl.
           do 2 f_equal. rewrite length_app. simpl. lia.
      * intros _. destruct calls as [|c calls].
        -- simpl in Hrest. injection Hrest as _ <-. exact Hrec.
        -- rewrite Hfin by done. by rewrite <- app_assoc.
Qed.

(** [limit] calls for a key with no record in their windows, each within the
    window of the others and of one further call: all are admitted and the
    further call is rejected, having counted [limit] records. *)
Lemma burst_on_fallback_store {R} (w : World R) uid ut cfg calls t0 t1 :
  _get_rate_limit_config ut = Ok cfg →
  Z.of_nat (length calls) = limit cfg →
  (∀ c, c ∈ calls ++ [(t0, t1)] →
        in_window (window cfg) c.2 (records w ("rate_limit:" +:+ uid)) = []) →
  (∀ c c', c ∈ calls → c' ∈ calls ++ [(t0, t1)] → c'.2 - seconds (window cfg) < c.1) →
  ∃ d,
    fst (run_checks None uid ut (calls ++ [(t0, t1)]) w)
    = imap (fallback_admission cfg 0) calls
      ++ [Raise (HTTPException HTTP_429_TOO_MANY_REQUESTS (DetailRate d))]
    ∧ Rejected.current_usage d = limit cfg
    ∧ records (snd (run_checks None uid ut (calls ++ [(t0, t1)]) w))
        ("rate_limit:" +:+ uid)
      = calls.*1.
Proof.
  intros Hcfg Hlen Hfresh Hnear.
  destruct (run_checks_memory_admits uid ut cfg Hcfg calls w []) as [Hres Hfin].
  { intros c Hc. apply Hfresh, elem_of_app. by left. }
  { intros c c' Hc Hc'. apply Hnear; [exact Hc|]. apply elem_of_app. by left. }
  { simpl. lia. }
  assert (Hne : calls ≠ []).
  { intros ->. apply config_positive in Hcfg. simpl in Hlen. lia. }
  specialize (Hfin Hne). simpl in Hfin.
  rewrite run_checks_app, Hres. simpl.
  set (w1 := snd (run_checks None uid ut calls w)) in *.
  assert (Hwin : in_window (window cfg) t1 (records w1 ("rate_limit:" +:+ uid)) = calls.*1).
  { rewrite Hfin. apply in_window_all. apply Forall_forall. intros t Ht.
    apply list_elem_of_fmap in Ht as ([a b] & -> & Hc). simpl.
    apply (Hnear (a, b) (t0, t1) Hc). apply elem_of_app. right. apply list_elem_of_here. }
  destruct (check_rate_limit_memory_spec w1 uid ut cfg t0 t1 Hcfg)
    as [(_ & m & _ & Hrej)|(Hlt & _)]; cbv zeta in *; rewrite Hwin in *.
  - rewrite Hrej. simpl. eexists. split; [reflexivity|]. simpl.
    split; [rewrite length_fmap; exact Hlen|].
    by rewrite records_after_fetch.
  - rewrite length_fmap in Hlt. lia.
Qed.

(** ** Truncation to whole seconds *)

(** Truncation of a non-negative duration to whole seconds. *)
Lemma py_int_nonneg (d : time) :
  0 ≤ d → 0 ≤ py_int d ∧ seconds (py_int d) ≤ d < seconds (py_int d) + ticks_per_second.
Proof.
  intros Hd. unfold py_int, seconds, ticks_per_second.
  rewrite Z.quot_div_nonneg by lia.
  pose proof (Z.div_pos d 1000000 Hd ltac:(lia)).
  pose proof (Z.mul_div_le d 1000000 ltac:(lia)).
  pose proof (Z.mul_succ_div_gt d 1000000 ltac:(lia)). lia.
Qed.

(** The late call is rejected. *)
Lemma late_call_rejected :
  check_rate_limit None "u1" default_user_type
    (seconds 1000 + 800000) (seconds 1000 + 801000) (world_after_burst 20)
  = (Raise (HTTPException 429 (DetailRate late_detail)), late_world).
Proof. vm_compute. reflexivity. Qed.

(** * The claims *)

(** C1. The scenario on the fallback store: 21 calls for one user within a
    second, from an empty store, under the 20 per 60 s policy.  The first 20
    are admitted and the 21st is rejected with [current_usage = 20], but
    [remaining] runs from 18 down to -1, not from 19 down to 0. *)
Theorem fallback_burst_remaining :
  fst (run_checks None "u1" "global_unauthenticated_user" (burst 21) (empty_world tt))
  = ((fun i => Ok {| Admission.allowed := true;
                     Admission.limit := 20;
                     Admission.remaining := 18 - i;
                     Admission.reset_time := seconds 1060 + 40000 * i |})
       <$> seqZ 0 20)
    ++ [Raise (HTTPException 429 (DetailRate late_detail))].
Proof. vm_compute. reflexivity. Qed.

(** C2, as stated, fails twice.  When [zadd] has written the member and
    [expire] raises, the record step returns normally but is no no-op: the
    member is on the server, and the next fetch counts it.  And a check can
    raise an exception that is not the rejection: on a key that holds
    twenty members of which the oldest is the text [nan], it raises the
    [ValueError] of [int]. *)
Lemma record_step_not_a_noop :
  (expire expire_fails "rate_limit:u1" 60
     (<["rate_limit:u1" := [(py_str (seconds 1000), seconds 1000)]]> ∅)
   = (Raise (BackendError "connection lost"),
      <["rate_limit:u1" := [(py_str (seconds 1000), seconds 1000)]]> ∅)
   ∧ _add_request_to_redis expire_fails "rate_limit:u1" (seconds 1000) 60 (empty_world ∅)
     = (Ok tt,
        empty_world (<["rate_limit:u1" := [(py_str (seconds 1000), seconds 1000)]]> ∅))
   ∧ empty_world (<["rate_limit:u1" := [(py_str (seconds 1000), seconds 1000)]]> ∅)
     ≠ empty_world (∅ : ZSets)
   ∧ fst (_get_requests_from_redis expire_fails "rate_limit:u1" 60 (seconds 1001)
            (snd (_add_request_to_redis expire_fails "rate_limit:u1" (seconds 1000) 60
                    (empty_world ∅))))
     = Ok [Finite (seconds 1000)])
  ∧ fst (check_rate_limit (Some zset_server) "u1" default_user_type
           (seconds 1001) (seconds 1001) foreign_world)
    = Raise (ValueError "cannot convert float NaN to integer")
  ∧ ¬ is_rate_limit_exceeded (ValueError "cannot convert float NaN to integer").
Proof.
  split; [|split].
  - split; [reflexivity|]. split; [reflexivity|]. split; [|reflexivity].
    intros H. apply (f_equal (fun w => redis w !! "rate_limit:u1")) in H.
    vm_compute in H. discriminate.
  - vm_compute. reflexivity.
  - intros H. exact H.
Qed.

(** C2, amended.  With the shared backend active no exception of a backend
    command leaves the limiter.  A fetch whose command raises evaluates to
    the empty list.  A record step whose command raises returns normally,
    sends nothing further and leaves the fallback store alone; the server
    is left as the commands that ran have left it, so the step is a no-op
    when [zadd] raises without an effect, and is none when [zadd] succeeds
    and [expire] raises: what [zadd] wrote stays.  A check on the fallback
    store returns or raises the rejection.  A check on the shared backend
    returns, or it has fetched [limit] floats or more and raises by the
    oldest of them: the rejection when it is finite, the [OverflowError] of
    [int] when it is an infinity, the [ValueError] of [int] when it is a
    NaN. *)
Theorem backend_faults_absorbed {R} (c : RedisClient R) (w : World R)
    (key uid ut : string) (win : Z) (now ts t0 t1 : time) :
  (∀ e s,
     zremrangebyscore c key 0 (now - seconds win) (redis w) = (Raise e, s) →
     _get_requests_from_redis c key win now w = (Ok [], set_redis w s))
  ∧ (∀ n s e s',
       zremrangebyscore c key 0 (now - seconds win) (redis w) = (Ok n, s) →
       zrangebyscore c key (now - seconds win) now s = (Raise e, s') →
       _get_requests_from_redis c key win now w = (Ok [], set_redis w s'))
  ∧ (∀ e s,
       zadd c key [(py_str ts, ts)] (redis w) = (Raise e, s) →
       _add_request_to_redis c key ts win w = (Ok tt, set_redis w s))
  ∧ (∀ e,
       zadd c key [(py_str ts, ts)] (redis w) = (Raise e, redis w) →
       _add_request_to_redis c key ts win w = (Ok tt, w))
  ∧ (∀ n s e s',
       zadd c key [(py_str ts, ts)] (redis w) = (Ok n, s) →
       expire c key win s = (Raise e, s') →
       _add_request_to_redis c key ts win w = (Ok tt, set_redis w s'))
  ∧ (∃ s, _add_request_to_redis c key ts win w = (Ok tt, set_redis w s))
  ∧ match fst (check_rate_limit None uid ut t0 t1 w) with
    | Ok _ => True
    | Raise e => is_rate_limit_exceeded e
    end
  ∧ match check_rate_limit (Some c) uid ut t0 t1 w with
    | (Ok _, _) => True
    | (Raise e, w') =>
        ∃ cfg xs oldest,
          _get_rate_limit_config ut = Ok cfg
          ∧ _get_requests_from_redis c ("rate_limit:" +:+ uid) (window cfg) t1 w = (Ok xs, w')
          ∧ limit cfg ≤ Z.of_nat (length xs)
          ∧ float_min xs = Ok oldest
          ∧ oldest ∈ xs
          ∧ match oldest with
            | Finite _ => is_rate_limit_exceeded e
            | PosInf | NegInf => e = OverflowError "cannot convert float infinity to integer"
            | NaN => e = ValueError "cannot convert float NaN to integer"
            end
    end.
Proof.
  split; [|split; [|split; [|split; [|split; [|split; [|split]]]]]].
  - intros e s H.
    unfold _get_requests_from_redis, try_except, bind, redis_call. by rewrite H.
  - intros n s e s' H1 H2.
    unfold _get_requests_from_redis, try_except, bind, redis_call.
    rewrite H1. simpl. by rewrite H2.
  - intros e s H.
    unfold _add_request_to_redis, try_except, bind, redis_call. by rewrite H.
  - intros e H.
    unfold _add_request_to_redis, try_except, bind, redis_call. rewrite H.
    by destruct w.
  - intros n s e s' H1 H2.
    unfold _add_request_to_redis, try_except, bind, redis_call.
    rewrite H1. simpl. by rewrite H2.
  - apply add_request_to_redis_total.
  - destruct (_get_rate_limit_config ut) as [cfg|err] eqn:Hcfg;
      [|by rewrite get_rate_limit_config_eq in Hcfg].
    destruct (check_rate_limit_memory_spec w uid ut cfg t0 t1 Hcfg)
      as [(_ & m & _ & ->)|(_ & w' & -> & _)]; simpl; done.
  - destruct (_get_rate_limit_config ut) as [cfg|err] eqn:Hcfg;
      [|by rewrite get_rate_limit_config_eq in Hcfg].
    destruct (check_rate_limit_redis_spec c w uid ut cfg t0 t1 Hcfg)
      as (xs & s1 & Hfetch & [(Hge & m & Hm & ->)|(_ & s2 & _ & ->)]); [|done].
    exists cfg, xs, m. split; [reflexivity|]. split; [exact Hfetch|].
    split; [exact Hge|]. split; [exact Hm|].
    destruct (float_min_nonempty xs) as (m' & Hm' & Hin).
    { apply config_positive in Hcfg. lia. }
    assert (m' = m) as -> by congruence.
    split; [exact Hin|]. by destruct m.
Qed.

(** The record step behind the connection that is lost after [zadd]: it
    returns, and the server holds the member. *)
Lemma backend_faults_absorbed_witness :
  zadd expire_fails "rate_limit:u1" [(py_str (seconds 1000), seconds 1000)] ∅
  = (Ok 1, <["rate_limit:u1" := [(py_str (seconds 1000), seconds 1000)]]> ∅)
  ∧ _add_request_to_redis expire_fails "rate_limit:u1" (seconds 1000) 60 (empty_world ∅)
    = (Ok tt,
       set_redis (empty_world ∅)
         (<["rate_limit:u1" := [(py_str (seconds 1000), seconds 1000)]]> ∅)).
Proof.
  assert (Hadd : zadd expire_fails "rate_limit:u1" [(py_str (seconds 1000), seconds 1000)]
                   (redis (empty_world (∅ : ZSets)))
                 = (Ok 1, <["rate_limit:u1" := [(py_str (seconds 1000), seconds 1000)]]> ∅))
    by reflexivity.
  assert (Hexp : expire expire_fails "rate_limit:u1" 60
                   (<["rate_limit:u1" := [(py_str (seconds 1000), seconds 1000)]]> ∅)
                 = (Raise (BackendError "connection lost"),
                    <["rate_limit:u1" := [(py_str (seconds 1000), seconds 1000)]]> ∅))
    by reflexivity.
  split; [exact Hadd|].
  destruct (backend_faults_absorbed expire_fails (empty_world (∅ : ZSets))
              "rate_limit:u1" "u1" default_user_type 60
              (seconds 1000) (seconds 1000) (seconds 1000) (seconds 1000))
    as (_ & _ & _ & _ & Hpartial & _).
  exact (Hpartial 1 _ (BackendError "connection lost") _ Hadd Hexp).
Defined.

(** C3. A call that rejects writes no record.  For either backend the world
    after the call is the world the prune-and-fetch left: nothing is sent
    to the backend after the fetch, and on the fallback store the key holds
    exactly the pruned records that were counted. *)
Theorem rejection_records_nothing {R} (rc : option (RedisClient R)) (w w' : World R)
    (uid ut : string) (cfg : Config) (t0 t1 : time) (e : exn) :
  _get_rate_limit_config ut = Ok cfg →
  check_rate_limit rc uid ut t0 t1 w = (Raise e, w') →
  w' = match rc with
       | Some c =>
           snd (_get_requests_from_redis c ("rate_limit:" +:+ uid) (window cfg) t1 w)
       | None => snd (_get_requests_from_memory ("rate_limit:" +:+ uid) (window cfg) t1 w)
       end
  ∧ (rc = None →
     records w' ("rate_limit:" +:+ uid)
     = filter (fun t => t1 - seconds (window cfg) < t) (records w ("rate_limit:" +:+ uid))
     ∧ limit cfg ≤ Z.of_nat (length (records w' ("rate_limit:" +:+ uid)))
     ∧ ∃ d, e = HTTPException HTTP_429_TOO_MANY_REQUESTS (DetailRate d)
            ∧ Rejected.current_usage d
              = Z.of_nat (length (records w' ("rate_limit:" +:+ uid)))).
Proof.
  intros Hcfg Hrun. destruct rc as [c|].
  - split; [|discriminate].
    destruct (check_rate_limit_redis_spec c w uid ut cfg t0 t1 Hcfg)
      as (xs & s1 & Hfetch & [(_ & m & _ & Hrej)|(_ & s2 & _ & Hadm)]).
    + rewrite Hfetch. simpl. congruence.
    + congruence.
  - destruct (check_rate_limit_memory_spec w uid ut cfg t0 t1 Hcfg)
      as [(Hge & m & Hm & Hrej)|(_ & w2 & Hadm & _)]; [|congruence].
    rewrite Hrej in Hrun. injection Hrun as <- <-.
    split; [reflexivity|]. intros _.
    rewrite records_after_fetch. split; [reflexivity|]. split; [exact Hge|].
    eexists. split; reflexivity.
Qed.

(** The rejection that follows the burst of 20 leaves the fetched world. *)
Lemma rejection_records_nothing_witness :
  _get_rate_limit_config default_user_type = Ok {| limit := 20; window := 60 |}
  ∧ check_rate_limit None "u1" default_user_type
      (seconds 1000 + 800000) (seconds 1000 + 801000) (world_after_burst 20)
    = (Raise (HTTPException 429 (DetailRate late_detail)), late_world)
  ∧ late_world
    = snd (_get_requests_from_memory ("rate_limit:" +:+ "u1") 60 (seconds 1000 + 801000)
             (world_after_burst 20))
  ∧ 20 ≤ Z.of_nat (length (records late_world ("rate_limit:" +:+ "u1"))).
Proof.
  assert (Hcfg : _get_rate_limit_config default_user_type
                 = Ok {| limit := 20; window := 60 |}) by reflexivity.
  split; [exact Hcfg|]. split; [exact late_call_rejected|].
  destruct (rejection_records_nothing None (world_after_burst 20) late_world
              "u1" default_user_type {| limit := 20; window := 60 |}
              (seconds 1000 + 800000) (seconds 1000 + 801000)
              (HTTPException 429 (DetailRate late_detail))
              Hcfg late_call_rejected) as (Hworld & Hmem).
  split; [exact Hworld|].
  destruct (Hmem eq_refl) as (_ & Hlen & _). exact Hlen.
Defined.

(** C4. An admission on the fallback store appends exactly the record [now]
    and returns [reset_time = now + window], but its [remaining] is
    [limit - len(recent) - 2]: 18 and not 19 for the first request of a key,
    and -1 for the request that finds 19 records. *)
Theorem fallback_admission_remaining :
  (∃ a w',
     check_rate_limit None "u1" default_user_type (seconds 1000) (seconds 1000 + 1000)
       (empty_world tt) = (Ok a, w')
     ∧ records (empty_world tt) "rate_limit:u1" = []
     ∧ records w' "rate_limit:u1" = [seconds 1000]
     ∧ Admission.reset_time a = seconds 1000 + seconds 60
     ∧ Admission.remaining a = 18
     ∧ Z.max 0 (20 - 0 - 1) = 19)
  ∧ (∃ a w',
       check_rate_limit None "u1" default_user_type
         (seconds 1000 + 760000) (seconds 1000 + 761000) (world_after_burst 19) = (Ok a, w')
       ∧ length (records (world_after_burst 19) "rate_limit:u1") = 19%nat
       ∧ records w' "rate_limit:u1"
         = records (world_after_burst 19) "rate_limit:u1" ++ [seconds 1000 + 760000]
       ∧ Admission.remaining a = -1
       ∧ Z.max 0 (20 - 19 - 1) = 0).
Proof.
  split; eexists _, _; (split; [vm_compute; reflexivity|]); vm_compute; auto 10.
Qed.

(** C5, as stated, fails: the rejection after the burst has
    [reset_time - now = 59.2 s] and [retry_after = 59]. *)
Lemma retry_after_drops_fraction :
  check_rate_limit None "u1" default_user_type
    (seconds 1000 + 800000) (seconds 1000 + 801000) (world_after_burst 20)
  = (Raise (HTTPException 429 (DetailRate late_detail)), late_world)
  ∧ Z.max 0 (Rejected.reset_time late_detail - (seconds 1000 + 800000)) = 59200000
  ∧ seconds (Rejected.retry_after late_detail) = 59000000
  ∧ seconds (Rejected.retry_after late_detail)
    ≠ Z.max 0 (Rejected.reset_time late_detail - (seconds 1000 + 800000)).
Proof.
  split; [vm_compute; reflexivity|]. vm_compute. repeat split; discriminate.
Qed.

(** C5, amended. In every rejection [reset_time] is [min(recent) + window]
    and [retry_after] is [int(reset_time - now)]: the difference truncated
    towards zero to whole seconds, [now] being the time read at the start of
    the call.  On the fallback store, when the clock read of the fetch is
    not earlier than [now], this is [max(0, reset_time - now)] rounded down
    to whole seconds, and is not negative. *)
Theorem retry_after_truncates {R} (rc : option (RedisClient R)) (w w' : World R)
    (uid ut : string) (cfg : Config) (t0 t1 : time) (code : Z) (d : Rejected.t) :
  _get_rate_limit_config ut = Ok cfg →
  check_rate_limit rc uid ut t0 t1 w = (Raise (HTTPException code (DetailRate d)), w') →
  ∃ oldest,
    match rc with
    | Some c =>
        ∃ recent,
          _get_requests_from_redis c ("rate_limit:" +:+ uid) (window cfg) t1 w
          = (Ok recent, w')
          ∧ float_min recent = Ok (Finite oldest)
    | None =>
        ∃ recent,
          _get_requests_from_memory ("rate_limit:" +:+ uid) (window cfg) t1 w
          = (Ok recent, w')
          ∧ list_min (heap w' !!! recent) = Ok oldest
    end
    ∧ Rejected.reset_time d = oldest + seconds (window cfg)
    ∧ Rejected.retry_after d = Z.quot (Rejected.reset_time d - t0) ticks_per_second
    ∧ (rc = None → t0 ≤ t1 →
       0 ≤ Rejected.retry_after d
       ∧ seconds (Rejected.retry_after d)
         ≤ Z.max 0 (Rejected.reset_time d - t0)
         < seconds (Rejected.retry_after d) + ticks_per_second).
Proof.
  intros Hcfg Hrun. destruct rc as [c|].
  - destruct (check_rate_limit_redis_spec c w uid ut cfg t0 t1 Hcfg)
      as (xs & s1 & Hfetch & [(_ & m & Hm & Hrej)|(_ & s2 & _ & Hadm)]); [|congruence].
    rewrite Hrej in Hrun. destruct m as [oldest| | |]; try discriminate.
    cbn [float_add] in Hrun. injection Hrun as _ <- <-.
    exists oldest. split; [by exists xs|]. simpl. repeat split; try done.
  - destruct (check_rate_limit_memory_spec w uid ut cfg t0 t1 Hcfg)
      as [(_ & m & Hm & Hrej)|(_ & w2 & Hadm & _)]; [|congruence].
    cbv zeta in *. rewrite Hrej in Hrun. injection Hrun as _ <- <-.
    destruct (get_requests_from_memory_spec w ("rate_limit:" +:+ uid) (window cfg) t1)
      as (l & w1 & Hfetch & Hk & Hl & Hr).
    rewrite Hfetch. simpl. exists m. split.
    { exists l. split; [reflexivity|]. by rewrite (lookup_total_correct _ _ _ Hl). }
    split; [reflexivity|]. split; [reflexivity|].
    intros _ Hmono.
    destruct (list_min_nonempty
                (in_window (window cfg) t1 (records w ("rate_limit:" +:+ uid))))
      as (m' & Hm' & Hin & _).
    { destruct (in_window _ _ _); [discriminate|simpl; lia]. }
    assert (m' = m) as -> by congruence.
    unfold in_window in Hin. apply list_elem_of_filter in Hin as [Hin _].
    rewrite Z.max_r by lia. apply py_int_nonneg. lia.
Qed.

(** The rejection that follows the burst of 20: 59.2 s become 59. *)
Lemma retry_after_truncates_witness :
  _get_rate_limit_config default_user_type = Ok {| limit := 20; window := 60 |}
  ∧ check_rate_limit None "u1" default_user_type
      (seconds 1000 + 800000) (seconds 1000 + 801000) (world_after_burst 20)
    = (Raise (HTTPException 429 (DetailRate late_detail)), late_world)
  ∧ seconds 1000 + 800000 ≤ seconds 1000 + 801000
  ∧ Rejected.retry_after late_detail
    = Z.quot (Rejected.reset_time late_detail - (seconds 1000 + 800000)) ticks_per_second
  ∧ 0 ≤ Rejected.retry_after late_detail.
Proof.
  assert (Hcfg : _get_rate_limit_config default_user_type
                 = Ok {| limit := 20; window := 60 |}) by reflexivity.
  assert (Hmono : seconds 1000 + 800000 ≤ seconds 1000 + 801000) by (vm_compute; discriminate).
  split; [exact Hcfg|]. split; [exact late_call_rejected|]. split; [exact Hmono|].
  destruct (retry_after_truncates None (world_after_burst 20) late_world
              "u1" default_user_type {| limit := 20; window := 60 |}
              (seconds 1000 + 800000) (seconds 1000 + 801000) 429 late_detail
              Hcfg late_call_rejected)
    as (oldest & _ & _ & Hretry & Hpos).
  split; [exact Hretry|]. apply (Hpos eq_refl Hmono).
Defined.



(** C7. A prune-and-fetch on the fallback store, for every key, window and
    stored sequence: the key afterwards holds, and the call returns, the
    stored records with timestamp strictly greater than [now - window], in
    their order and with their multiplicity; the records with timestamp at
    most [now - window], and only they, are gone. *)
Theorem prune_and_fetch_memory_exact {R} (w : World R) (key : string) (win : Z) (now : time) :
  ∃ l w',
    _get_requests_from_memory key win now w = (Ok l, w')
    ∧ memory_store w' !! key = Some l
    ∧ heap w' !! l = Some (records w' key)
    ∧ records w' key = filter (fun t => now - seconds win < t) (records w key)
    ∧ records w' key `sublist_of` records w key
    ∧ (∀ t, t ∈ records w' key ↔ t ∈ records w key ∧ now - seconds win < t)
    ∧ (∀ t, now - seconds win < t →
          count_occ Z.eq_dec (records w' key) t = count_occ Z.eq_dec (records w key) t)
    ∧ (∀ t, t ≤ now - seconds win → count_occ Z.eq_dec (records w' key) t = 0%nat).
Proof.
  destruct (get_requests_from_memory_spec w key win now)
    as (l & w' & Hrun & Hk & Hl & Hr).
  exists l, w'.
  assert (Hrec : records w' key = in_window win now (records w key))
    by apply (records_eq _ _ l _ Hk Hl).
  rewrite Hrec. split; [exact Hrun|]. split; [exact Hk|]. split; [exact Hl|].
  split; [reflexivity|]. split; [apply sublist_filter|].
  split; [|split].
  - intros t. unfold in_window. rewrite list_elem_of_filter. tauto.
  - intros t. apply in_window_count.
  - intros t Ht. apply count_occ_not_In. rewrite <- list_elem_of_In.
    unfold in_window. rewrite list_elem_of_filter. lia.
Qed.

(** C8. The peek never appends a record: for either backend it leaves the
    world as its prune-and-fetch left it, and it returns the limit and the
    window of the policy of the tier, [remaining = limit - len(recent)] for
    the list fetched, with no 1 taken off, and [reset_time] one window
    after its second clock read.  A check that follows a peek (whose clock
    read is not later than the check's) returns what the check alone
    returns from the same world at the same time: on the fallback store,
    where it also leaves the same records, and on a shared backend that
    behaves as a sorted set, where the peek has removed from the key only
    members that the check would prune. *)
Theorem peek_does_not_consume {R} (rc : option (RedisClient R)) (w : World R)
    (uid ut : string) (tf ti t0 t1 : time) :
  tf ≤ t1 →
  let key := "rate_limit:" +:+ uid in
  let peeked := snd (get_rate_limit_info rc uid ut tf ti w) in
  ∃ cfg (n : nat),
    _get_rate_limit_config ut = Ok cfg
    ∧ match rc with
      | Some c =>
          ∃ recent,
            _get_requests_from_redis c key (window cfg) tf w = (Ok recent, peeked)
            ∧ n = length recent
      | None =>
          ∃ recent,
            _get_requests_from_memory key (window cfg) tf w = (Ok recent, peeked)
            ∧ n = length (heap peeked !!! recent)
      end
    ∧ get_rate_limit_info rc uid ut tf ti w
      = (Ok {| Info.limit := limit cfg;
               Info.remaining := limit cfg - Z.of_nat n;
               Info.reset_time := ti + seconds (window cfg);
               Info.window := window cfg |}, peeked)
    ∧ (rc = None →
       records peeked key `sublist_of` records w key
       ∧ fst (check_rate_limit None uid ut t0 t1 peeked)
         = fst (check_rate_limit None uid ut t0 t1 w)
       ∧ records (snd (check_rate_limit None uid ut t0 t1 peeked)) key
         = records (snd (check_rate_limit None uid ut t0 t1 w)) key)
    ∧ (∀ c view, rc = Some c → sorted_set_server c view →
         view (redis peeked) key
         = filter (fun m => ¬ (0 ≤ m.2 ≤ tf - seconds (window cfg))) (view (redis w) key)
         ∧ memory_store peeked = memory_store w
         ∧ heap peeked = heap w
         ∧ fst (check_rate_limit (Some c) uid ut t0 t1 peeked)
           = fst (check_rate_limit (Some c) uid ut t0 t1 w)).
Proof.
  intros Hmono key peeked. subst key peeked.
  destruct (_get_rate_limit_config ut) as [cfg|err] eqn:Hcfg;
    [|by rewrite get_rate_limit_config_eq in Hcfg].
  destruct rc as [c|].
  - destruct (get_rate_limit_info_redis c w uid ut cfg tf ti Hcfg)
      as (xs & s & Hfetch & Hinfo).
    rewrite Hinfo. cbn [snd]. exists cfg, (length xs).
    split; [reflexivity|]. split; [by exists xs|]. split; [reflexivity|].
    split; [discriminate|].
    intros c' view [= <-] Hsorted.
    destruct (get_requests_from_sorted_set c view w ("rate_limit:" +:+ uid)
                (window cfg) tf Hsorted) as (s' & Hfetch' & Hview).
    rewrite Hfetch in Hfetch'. injection Hfetch' as _ <-.
    split; [exact Hview|]. split; [reflexivity|]. split; [reflexivity|].
    apply check_rate_limit_redis_ext. intros cfg' Hcfg'.
    assert (cfg' = cfg) as -> by congruence.
    destruct (get_requests_from_sorted_set c view (set_redis w s) ("rate_limit:" +:+ uid)
                (window cfg) t1 Hsorted) as (s2 & -> & _).
    destruct (get_requests_from_sorted_set c view w ("rate_limit:" +:+ uid)
                (window cfg) t1 Hsorted) as (s3 & -> & _).
    cbn [fst set_redis redis]. rewrite Hview.
    assert (Hprune :
      filter (fun m : RedisStr * Z => ¬ (0 ≤ m.2 ≤ t1 - seconds (window cfg)))
        (filter (fun m : RedisStr * Z => ¬ (0 ≤ m.2 ≤ tf - seconds (window cfg)))
           (view (redis w) ("rate_limit:" +:+ uid)))
      = filter (fun m : RedisStr * Z => ¬ (0 ≤ m.2 ≤ t1 - seconds (window cfg)))
          (view (redis w) ("rate_limit:" +:+ uid))).
    { rewrite list_filter_filter. apply list_filter_iff. intros m. lia. }
    by rewrite Hprune.
  - rewrite (get_rate_limit_info_memory w uid ut cfg tf ti Hcfg). cbn [snd].
    destruct (get_requests_from_memory_spec w ("rate_limit:" +:+ uid) (window cfg) tf)
      as (l & w1 & Hrun & Hk & Hl & Hr).
    rewrite Hrun. cbn [snd].
    exists cfg, (length (in_window (window cfg) tf (records w ("rate_limit:" +:+ uid)))).
    split; [reflexivity|].
    split; [exists l; split; [exact Hrun|]; by rewrite (lookup_total_correct _ _ _ Hl)|].
    split; [reflexivity|].
    split; [|discriminate].
    intros _.
    assert (Hrec : records w1 ("rate_limit:" +:+ uid)
                   = in_window (window cfg) tf (records w ("rate_limit:" +:+ uid)))
      by apply (records_eq _ _ l _ Hk Hl).
    split; [rewrite Hrec; apply sublist_filter|].
    apply (check_rate_limit_memory_ext w1 w uid ut cfg t0 t1 Hcfg).
    rewrite Hrec. by apply in_window_in_window.
Qed.

Lemma peek_then_check_memory :
  seconds 1000 + 800000 ≤ seconds 1000 + 801000.
Proof. vm_compute. discriminate. Qed.

Lemma peek_then_check_backend :
  seconds 1005 ≤ seconds 1006.
Proof. vm_compute. discriminate. Qed.

(** A peek after five admissions does not change the next check, on the
    fallback store and on the server of the examples. *)
Lemma peek_does_not_consume_witness :
  seconds 1000 + 800000 ≤ seconds 1000 + 801000
  ∧ fst (check_rate_limit None "u1" default_user_type
           (seconds 1000 + 800500) (seconds 1000 + 801000)
           (snd (get_rate_limit_info None "u1" default_user_type
                   (seconds 1000 + 800000) (seconds 1000 + 800100) (world_after_burst 5))))
    = fst (check_rate_limit None "u1" default_user_type
             (seconds 1000 + 800500) (seconds 1000 + 801000) (world_after_burst 5))
  ∧ seconds 1005 ≤ seconds 1006
  ∧ sorted_set_server zset_server zset_view
  ∧ fst (check_rate_limit (Some zset_server) "u1" default_user_type
           (seconds 1005 + 500000) (seconds 1006)
           (snd (get_rate_limit_info (Some zset_server) "u1" default_user_type
                   (seconds 1005) (seconds 1005 + 100) (empty_world five_members))))
    = fst (check_rate_limit (Some zset_server) "u1" default_user_type
             (seconds 1005 + 500000) (seconds 1006) (empty_world five_members)).
Proof.
  split; [exact peek_then_check_memory|]. split.
  { destruct (peek_does_not_consume None (world_after_burst 5) "u1" default_user_type
                (seconds 1000 + 800000) (seconds 1000 + 800100)
                (seconds 1000 + 800500) (seconds 1000 + 801000) peek_then_check_memory)
      as (cfg & n & _ & _ & _ & Hmem & _).
    destruct (Hmem eq_refl) as (_ & Hsame & _). exact Hsame. }
  split; [exact peek_then_check_backend|]. split; [exact zset_server_sorted_set|].
  destruct (peek_does_not_consume (Some zset_server) (empty_world five_members)
              "u1" default_user_type
              (seconds 1005) (seconds 1005 + 100)
              (seconds 1005 + 500000) (seconds 1006) peek_then_check_backend)
    as (cfg & n & _ & _ & _ & _ & Hbackend).
  destruct (Hbackend zset_server zset_view eq_refl zset_server_sorted_set)
    as (_ & _ & _ & Hsame).
  exact Hsame.
Defined.

(** C9. A tier that is not in the policy table gets the policy of
    [global_unauthenticated_user], 20 requests per 60 seconds, which no
    policy of the table undercuts; the lookup raises for no tier, and a
    check with an unknown tier is the check with that default tier. *)
Theorem unknown_tier_default {R} (rc : option (RedisClient R)) (w : World R)
    (uid ut : string) (t0 t1 : time) :
  RATE_LIMITS !! ut = None →
  _get_rate_limit_config ut = Ok {| limit := 20; window := 60 |}
  ∧ _get_rate_limit_config ut = _get_rate_limit_config "global_unauthenticated_user"
  ∧ (∀ ut', ∃ cfg, _get_rate_limit_config ut' = Ok cfg
                   ∧ 20 ≤ limit cfg ∧ window cfg = 60)
  ∧ check_rate_limit rc uid ut t0 t1 w
    = check_rate_limit rc uid "global_unauthenticated_user" t0 t1 w.
Proof.
  intros Hnone.
  assert (Hcfg : _get_rate_limit_config ut = Ok {| limit := 20; window := 60 |}).
  { rewrite get_rate_limit_config_eq, Hnone. reflexivity. }
  split; [exact Hcfg|]. split; [rewrite Hcfg; reflexivity|]. split.
  - intros ut'. destruct (_get_rate_limit_config ut') as [cfg|err] eqn:E;
      [|by rewrite get_rate_limit_config_eq in E].
    exists cfg. split; [reflexivity|]. by apply (config_positive ut').
  - unfold check_rate_limit. rewrite Hcfg. reflexivity.
Qed.

(** The tier [vip] is not in the table. *)
Lemma unknown_tier_default_witness :
  RATE_LIMITS !! "vip" = None
  ∧ _get_rate_limit_config "vip" = Ok {| limit := 20; window := 60 |}
  ∧ check_rate_limit None "u1" "vip" (seconds 1000) (seconds 1000 + 1000) (empty_world tt)
    = check_rate_limit None "u1" "global_unauthenticated_user"
        (seconds 1000) (seconds 1000 + 1000) (empty_world tt).
Proof.
  assert (Hnone : RATE_LIMITS !! "vip" = None) by reflexivity.
  split; [exact Hnone|].
  destruct (unknown_tier_default None (empty_world tt) "u1" "vip"
              (seconds 1000) (seconds 1000 + 1000) Hnone) as (Hcfg & _ & _ & Hcheck).
  split; [exact Hcfg|exact Hcheck].
Defined.

(** C10. The gate of [/ask_rag] is the check for the user
    [global_unauthenticated_user] under the 20 per 60 s policy, whatever the
    request: the request is served only when that check admits, and on the
    fallback store the outcome of the gate is decided by the records of the
    one key [rate_limit:global_unauthenticated_user]. *)
Theorem ask_rag_shared_budget {R Resp} (rc : option (RedisClient R))
    (respond : RAGRequest → Py R Resp) (request : RAGRequest)
    (t0 t1 : time) (w : World R) :
  _get_rate_limit_config default_user_type = Ok {| limit := 20; window := 60 |}
  ∧ "rate_limit:" +:+ "global_unauthenticated_user"
    = "rate_limit:global_unauthenticated_user"
  ∧ ask_rag_endpoint rc respond request t0 t1 w
    = match check_rate_limit rc "global_unauthenticated_user"
              "global_unauthenticated_user" t0 t1 w with
      | (Ok _, w') =>
          try_except (respond request)
            (fun _ => raise (HTTPException 500 (DetailText "Internal server error"))) w'
      | (Raise _, w') =>
          (Raise (HTTPException 500 (DetailText "Internal server error")), w')
      end
  ∧ (rc = None →
     ∀ w2 : World R,
       records w2 "rate_limit:global_unauthenticated_user"
       = records w "rate_limit:global_unauthenticated_user" →
       fst (check_rate_limit rc "global_unauthenticated_user"
              "global_unauthenticated_user" t0 t1 w2)
       = fst (check_rate_limit rc "global_unauthenticated_user"
                "global_unauthenticated_user" t0 t1 w)).
Proof.
  split; [reflexivity|]. split; [reflexivity|]. split.
  - unfold ask_rag_endpoint, apply_rate_limit, try_except, bind, default_user_type, raise.
    destruct (check_rate_limit rc _ _ t0 t1 w) as [[a|e] w']; reflexivity.
  - intros -> w2 Hsame.
    apply (check_rate_limit_memory_ext w2 w "global_unauthenticated_user"
             "global_unauthenticated_user" {| limit := 20; window := 60 |} t0 t1);
      [reflexivity|].
    change ("rate_limit:" +:+ "global_unauthenticated_user")
      with "rate_limit:global_unauthenticated_user".
    by rewrite Hsame.
Qed.

(** * Further properties of the limiter *)

(** ** What a call does to the rest of the fallback store *)

(** The fetch leaves the other keys alone, removes no key and keeps the
    store well formed. *)
Lemma get_requests_from_memory_frame {R} (w : World R) key win now :
  let w' := snd (_get_requests_from_memory key win now w) in
  is_Some (memory_store w' !! key)
  ∧ (∀ k, is_Some (memory_store w !! k) → is_Some (memory_store w' !! k))
  ∧ (wf_world w →
     wf_world w'
     ∧ (∀ k, k ≠ key → records w' k = records w k)
     ∧ (∀ k, k ≠ key → memory_store w' !! k ≠ memory_store w' !! key)).
Proof.
  unfold _get_requests_from_memory, defaultdict_getitem, bind.
  destruct (memory_store w !! key) as [l0|] eqn:E; simpl.
  - rewrite lookup_insert_eq. simpl. split; [by rewrite lookup_insert_eq|]. split.
    + intros k Hk. destruct (decide (key = k)) as [->|Hne].
      * by rewrite lookup_insert_eq.
      * by rewrite lookup_insert_ne.
    + intros Hwf. split; [|split].
      * intros k l. simpl. destruct (decide (key = k)) as [->|Hne].
        -- rewrite lookup_insert_eq. intros [= <-]. lia.
        -- rewrite lookup_insert_ne by done. intros Hk. apply Hwf in Hk. lia.
      * intros k Hne. unfold records. simpl. rewrite lookup_insert_ne by done.
        destruct (memory_store w !! k) as [l|] eqn:Hk; [|done].
        apply Hwf in Hk. rewrite lookup_total_insert_ne by lia. done.
      * intros k Hne. rewrite lookup_insert_eq, lookup_insert_ne by done.
        intros Hk. apply Hwf in Hk. lia.
  - rewrite lookup_insert_eq. simpl. split; [by rewrite lookup_insert_eq|]. split.
    + intros k Hk. destruct (decide (key = k)) as [->|Hne].
      * by rewrite lookup_insert_eq.
      * by rewrite !lookup_insert_ne.
    + intros Hwf. split; [|split].
      * intros k l. simpl. destruct (decide (key = k)) as [->|Hne].
        -- rewrite lookup_insert_eq. intros [= <-]. lia.
        -- rewrite !lookup_insert_ne by done. intros Hk. apply Hwf in Hk. lia.
      * intros k Hne. unfold records. simpl. rewrite !lookup_insert_ne by done.
        destruct (memory_store w !! k) as [l|] eqn:Hk; [|done].
        apply Hwf in Hk. rewrite !lookup_total_insert_ne by lia. done.
      * intros k Hne. rewrite lookup_insert_eq, !lookup_insert_ne by done.
        intros Hk. apply Hwf in Hk. lia.
Qed.

(** The record step, after a fetch for the same key, changes the list of
    that key only. *)
Lemma add_request_to_memory_frame {R} (w : World R) key ts :
  is_Some (memory_store w !! key) →
  let w' := snd (_add_request_to_memory key ts w) in
  memory_store w' = memory_store w
  ∧ next_loc w' = next_loc w
  ∧ ∀ l, memory_store w !! key ≠ Some l → heap w' !!! l = heap w !!! l.
Proof.
  intros [l0 Hk]. unfold _add_request_to_memory, defaultdict_getitem, bind, list_append.
  rewrite Hk. simpl. split; [done|]. split; [done|].
  intros l Hl. rewrite lookup_total_insert_ne; [done|]. intros ->. by apply Hl.
Qed.

(** The world a call on the fallback store leaves: that of the fetch, or
    that of the fetch followed by the record step. *)
Lemma check_rate_limit_memory_world {R} (w : World R) uid ut cfg t0 t1 :
  _get_rate_limit_config ut = Ok cfg →
  let w1 := snd (_get_requests_from_memory ("rate_limit:" +:+ uid) (window cfg) t1 w) in
  snd (check_rate_limit None uid ut t0 t1 w) = w1
  ∨ snd (check_rate_limit None uid ut t0 t1 w)
    = snd (_add_request_to_memory ("rate_limit:" +:+ uid) t0 w1).
Proof.
  intros Hcfg. cbv zeta.
  destruct (Z.le_gt_cases (limit cfg)
              (Z.of_nat (length (in_window (window cfg) t1
                                   (records w ("rate_limit:" +:+ uid))))))
    as [Hge|Hlt].
  - left. destruct (list_min_nonempty
                      (in_window (window cfg) t1 (records w ("rate_limit:" +:+ uid))))
      as (m & Hm & _).
    { apply config_positive in Hcfg. lia. }
    by rewrite (check_rate_limit_memory_reject w uid ut cfg t0 t1 m Hcfg Hge Hm).
  - right. unfold check_rate_limit.
    erewrite bind_ok by (unfold lift; rewrite Hcfg; reflexivity).
    destruct (get_requests_from_memory_spec w ("rate_limit:" +:+ uid) (window cfg) t1)
      as (l & w1 & Hrun & Hk & Hl & Hr).
    fold (in_window (window cfg) t1 (records w ("rate_limit:" +:+ uid))) in Hl.
    erewrite bind_ok by (apply fetch_stored; exact Hrun).
    erewrite bind_ok by (apply len_eq; exact Hl).
    destruct (Z.leb_spec (limit cfg)
                (Z.of_nat (length (in_window (window cfg) t1
                                     (records w ("rate_limit:" +:+ uid)))))) as [Hge|_];
      [lia|].
    destruct (add_request_to_memory_eq w1 _ _ _ t0 Hk Hl) as (w2 & Hadd & Hk2 & Hl2 & Hr2).
    erewrite bind_ok by exact Hadd.
    erewrite bind_ok by (apply len_eq; exact Hl2).
    rewrite Hrun. simpl. by rewrite Hadd.
Qed.

(** A call on the fallback store leaves the other keys alone, removes no
    key and keeps the store well formed. *)
Lemma check_rate_limit_memory_frame {R} (w : World R) uid ut t0 t1 :
  let w' := snd (check_rate_limit None uid ut t0 t1 w) in
  is_Some (memory_store w' !! ("rate_limit:" +:+ uid))
  ∧ (∀ k, is_Some (memory_store w !! k) → is_Some (memory_store w' !! k))
  ∧ (wf_world w →
     wf_world w' ∧ ∀ k, k ≠ "rate_limit:" +:+ uid → records w' k = records w k).
Proof.
  destruct (_get_rate_limit_config ut) as [cfg|err] eqn:Hcfg;
    [|by rewrite get_rate_limit_config_eq in Hcfg].
  pose proof (get_requests_from_memory_frame w ("rate_limit:" +:+ uid) (window cfg) t1)
    as (Hkey & Hdom & Hwf).
  cbv zeta in *.
  destruct (check_rate_limit_memory_world w uid ut cfg t0 t1 Hcfg) as [->| ->].
  { split; [exact Hkey|]. split; [exact Hdom|]. intros Hw. split; by apply Hwf. }
  set (w1 := snd (_get_requests_from_memory ("rate_limit:" +:+ uid) (window cfg) t1 w)) in *.
  destruct (add_request_to_memory_frame w1 ("rate_limit:" +:+ uid) t0 Hkey)
    as (Hst & Hnl & Hheap).
  cbv zeta in *. rewrite Hst. split; [exact Hkey|]. split; [exact Hdom|].
  intros Hw. destruct (Hwf Hw) as (Hw1 & Hrec & Hfresh). split.
  - intros k l. rewrite Hst, Hnl. apply Hw1.
  - intros k Hne. rewrite <- (Hrec k Hne). unfold records. rewrite Hst.
    destruct (memory_store w1 !! k) as [l|] eqn:Hk; [|done].
    apply Hheap. intros Hkl. apply (Hfresh k Hne). congruence.
Qed.

Lemma rate_limit_key_inj uid uid' :
  "rate_limit:" +:+ uid = "rate_limit:" +:+ uid' → uid = uid'.
Proof. intros H. cbv [String.append] in H. by injection H. Qed.

Lemma wf_empty_world {R} (s : R) : wf_world (empty_world s).
Proof. intros k l. unfold empty_world. simpl. by rewrite lookup_empty. Qed.

(** Well-formedness is kept by every sequence of calls on the fallback
    store. *)
Lemma run_checks_wf {R} uid ut calls (w : World R) :
  wf_world w → wf_world (snd (run_checks None uid ut calls w)).
Proof.
  revert w. induction calls as [|[t0 t1] calls IH]; intros w Hwf; [exact Hwf|].
  simpl. destruct (check_rate_limit None uid ut t0 t1 w) as [r w1] eqn:Hrun.
  specialize (IH w1). destruct (run_checks None uid ut calls w1) as [rs w2].
  simpl in *. apply IH.
  destruct (check_rate_limit_memory_frame w uid ut t0 t1) as (_ & _ & Hframe).
  rewrite Hrun in Hframe. by apply Hframe.
Qed.

(** X1. On the fallback store the counters of two users are independent: a
    call for one user leaves the records of every other user as they were,
    so it changes the outcome of no later call for another user. *)
Theorem users_independent {R} (w : World R) (uid uid' ut ut' : string)
    (t0 t1 t0' t1' : time) :
  wf_world w →
  uid ≠ uid' →
  let w1 := snd (check_rate_limit None uid ut t0 t1 w) in
  wf_world w1
  ∧ records w1 ("rate_limit:" +:+ uid') = records w ("rate_limit:" +:+ uid')
  ∧ fst (check_rate_limit None uid' ut' t0' t1' w1)
    = fst (check_rate_limit None uid' ut' t0' t1' w).
Proof.
  intros Hwf Hne w1.
  destruct (check_rate_limit_memory_frame w uid ut t0 t1) as (_ & _ & Hframe).
  destruct (Hframe Hwf) as [Hwf1 Hrec]. fold w1 in Hwf1, Hrec.
  assert (Hsame : records w1 ("rate_limit:" +:+ uid') = records w ("rate_limit:" +:+ uid')).
  { apply Hrec. intros Heq. apply Hne. symmetry. by apply rate_limit_key_inj. }
  split; [exact Hwf1|]. split; [exact Hsame|].
  destruct (_get_rate_limit_config ut') as [cfg|err] eqn:Hcfg;
    [|by rewrite get_rate_limit_config_eq in Hcfg].
  apply (check_rate_limit_memory_ext w1 w uid' ut' cfg t0' t1' Hcfg).
  by rewrite Hsame.
Qed.

(** After 20 admissions for [u1], a rejected call for [u1] leaves [u2]
    without records, and [u2] is admitted. *)
Lemma users_independent_witness :
  wf_world (world_after_burst 20)
  ∧ "u1" ≠ "u2"
  ∧ records (snd (check_rate_limit None "u1" default_user_type
                    (seconds 1000 + 800000) (seconds 1000 + 801000) (world_after_burst 20)))
      ("rate_limit:" +:+ "u2")
    = records (world_after_burst 20) ("rate_limit:" +:+ "u2")
  ∧ fst (check_rate_limit None "u2" default_user_type
           (seconds 1000 + 900000) (seconds 1000 + 901000)
           (snd (check_rate_limit None "u1" default_user_type
                   (seconds 1000 + 800000) (seconds 1000 + 801000) (world_after_burst 20))))
    = fst (check_rate_limit None "u2" default_user_type
             (seconds 1000 + 900000) (seconds 1000 + 901000) (world_after_burst 20)).
Proof.
  assert (Hwf : wf_world (world_after_burst 20))
    by apply run_checks_wf, wf_empty_world.
  assert (Hne : "u1" ≠ "u2") by discriminate.
  split; [exact Hwf|]. split; [exact Hne|].
  destruct (users_independent (world_after_burst 20) "u1" "u2"
              default_user_type default_user_type
              (seconds 1000 + 800000) (seconds 1000 + 801000)
              (seconds 1000 + 900000) (seconds 1000 + 901000) Hwf Hne)
    as (_ & Hrec & Hout).
  split; [exact Hrec|exact Hout].
Defined.

(** X2. The fallback store never forgets a key: a call or a peek removes no
    key, and leaves an entry for its own key, so that every user identifier
    ever checked or peeked stays in the store, with an empty list once its
    records are out of the window. *)
Theorem fallback_store_keeps_keys {R} (w : World R) (uid ut : string)
    (t0 t1 tf ti : time) :
  let key := "rate_limit:" +:+ uid in
  let checked := snd (check_rate_limit None uid ut t0 t1 w) in
  let peeked := snd (get_rate_limit_info None uid ut tf ti w) in
  is_Some (memory_store checked !! key)
  ∧ is_Some (memory_store peeked !! key)
  ∧ (∀ k, is_Some (memory_store w !! k) →
          is_Some (memory_store checked !! k) ∧ is_Some (memory_store peeked !! k))
  ∧ (∀ cfg, _get_rate_limit_config ut = Ok cfg →
            Forall (fun t => t ≤ tf - seconds (window cfg)) (records w key) →
            is_Some (memory_store peeked !! key) ∧ records peeked key = []).
Proof.
  intros key checked peeked.
  destruct (_get_rate_limit_config ut) as [cfg|err] eqn:Hcfg;
    [|by rewrite get_rate_limit_config_eq in Hcfg].
  destruct (check_rate_limit_memory_frame w uid ut t0 t1) as (Hck & Hcdom & _).
  pose proof (get_rate_limit_info_memory w uid ut cfg tf ti Hcfg) as Hpeek.
  assert (Hp : peeked = snd (_get_requests_from_memory key (window cfg) tf w)).
  { unfold peeked. by rewrite Hpeek. }
  destruct (get_requests_from_memory_frame w key (window cfg) tf) as (Hpk & Hpdom & _).
  cbv zeta in *. rewrite <- Hp in Hpk, Hpdom.
  split; [exact Hck|]. split; [exact Hpk|]. split.
  - intros k Hk. split; [by apply Hcdom|by apply Hpdom].
  - intros cfg' Hcfg' Hold. assert (cfg' = cfg) as -> by congruence.
    split; [exact Hpk|].
    rewrite Hp, records_after_fetch. unfold in_window.
    induction Hold as [|x xs Hx _ IH]; [reflexivity|].
    rewrite filter_cons_False by lia. exact IH.
Qed.

(** ** The sliding window on the fallback store *)

(** The records of the key and the stamps of the admitted calls agree on
    every window that ends at or after the last fetch. *)
Lemma run_checks_log {R} uid ut cfg :
  _get_rate_limit_config ut = Ok cfg →
  ∀ calls (w : World R) (earlier : list Z) (T : time),
    (∀ t, T ≤ t →
          in_window (window cfg) t (records w ("rate_limit:" +:+ uid))
          = in_window (window cfg) t earlier) →
    StronglySorted Z.le (T :: calls.*2) →
    ∀ t, Forall (fun c => c.2 ≤ t) calls → T ≤ t →
         in_window (window cfg) t
           (records (snd (run_checks None uid ut calls w)) ("rate_limit:" +:+ uid))
         = in_window (window cfg) t
             (earlier ++ admitted_stamps (fst (run_checks None uid ut calls w)) calls).
Proof.
  intros Hcfg. induction calls as [|[t0 t1] calls IH]; intros w earlier T Hinv Hsorted t Hle HT.
  - simpl. rewrite app_nil_r. by apply Hinv.
  - simpl in Hsorted. apply StronglySorted_inv in Hsorted as [Htail Hall].
    apply Forall_cons in Hall as [HT1 _].
    apply Forall_cons in Hle as [Ht1 Hle]. simpl in Ht1.
    assert (Hfetch : ∀ t', t1 ≤ t' →
              in_window (window cfg) t'
                (in_window (window cfg) t1 (records w ("rate_limit:" +:+ uid)))
              = in_window (window cfg) t' earlier).
    { intros t' Ht'. rewrite in_window_in_window by exact Ht'. apply Hinv. lia. }
    simpl.
    destruct (check_rate_limit_memory_spec w uid ut cfg t0 t1 Hcfg)
      as [(_ & m & _ & Hrun)|(_ & w1 & Hrun & Hrec & _)]; cbv zeta in *; rewrite Hrun.
    + specialize (IH (snd (_get_requests_from_memory ("rate_limit:" +:+ uid)
                             (window cfg) t1 w)) earlier t1).
      destruct (run_checks None uid ut calls _) as [rs w2]. simpl in *.
      apply IH; try done.
      intros t' Ht'. rewrite records_after_fetch. by apply Hfetch.
    + specialize (IH w1 (earlier ++ [t0]) t1).
      destruct (run_checks None uid ut calls w1) as [rs w2]. simpl in *.
      rewrite cons_middle, app_assoc.
      apply IH; try done.
      intros t' Ht'. rewrite Hrec. unfold in_window at 1 3.
      rewrite !filter_app. f_equal. by apply Hfetch.
Qed.

(** X3. The sliding-window log on the fallback store.  From a store that
    holds no record for the key, after any sequence of calls for the key
    whose fetch times do not decrease, a further call is admitted exactly
    when fewer than [limit] of the admitted calls before it recorded a
    timestamp later than its fetch time minus [window]; a rejection reports
    that number as [current_usage]. *)
Theorem sliding_window_log {R} (w : World R) (uid ut : string) (cfg : Config)
    (calls : list (time * time)) (t0 t1 : time) :
  _get_rate_limit_config ut = Ok cfg →
  records w ("rate_limit:" +:+ uid) = [] →
  StronglySorted Z.le ((calls ++ [(t0, t1)]).*2) →
  let before := run_checks None uid ut calls w in
  let seen := in_window (window cfg) t1 (admitted_stamps (fst before) calls) in
  match fst (check_rate_limit None uid ut t0 t1 (snd before)) with
  | Ok _ => Z.of_nat (length seen) < limit cfg
  | Raise e =>
      limit cfg ≤ Z.of_nat (length seen)
      ∧ ∃ d, e = HTTPException HTTP_429_TOO_MANY_REQUESTS (DetailRate d)
             ∧ Rejected.current_usage d = Z.of_nat (length seen)
  end.
Proof.
  intros Hcfg Hempty Hsorted before seen.
  rewrite fmap_app in Hsorted. simpl in Hsorted.
  assert (Hwin : in_window (window cfg) t1 (records (snd before) ("rate_limit:" +:+ uid))
                 = seen).
  { unfold seen, before.
    destruct calls as [|c calls]; [simpl; by rewrite Hempty|].
    apply (run_checks_log uid ut cfg Hcfg (c :: calls) w [] c.2).
    - intros t _. by rewrite Hempty.
    - apply StronglySorted_app_1_l in Hsorted as Hs. simpl in *.
      apply StronglySorted_cons. split; [|exact Hs].
      apply StronglySorted_cons in Hs as [Hall _]. by constructor.
    - apply Forall_forall. intros c' Hc'.
      apply (StronglySorted_app_1_elem_of _ _ _ c'.2 t1 Hsorted).
      + by apply list_elem_of_fmap_2.
      + apply list_elem_of_here.
    - apply (StronglySorted_app_1_elem_of _ _ _ c.2 t1 Hsorted).
      + apply list_elem_of_here.
      + apply list_elem_of_here. }
  destruct (check_rate_limit_memory_spec (snd before) uid ut cfg t0 t1 Hcfg)
    as [(Hge & m & _ & Hrun)|(Hlt & w1 & Hrun & _)]; cbv zeta in *;
    rewrite Hwin in *; rewrite Hrun; simpl.
  - split; [exact Hge|]. eexists. split; reflexivity.
  - exact Hlt.
Qed.

(** The rejection after the burst of 20 saw the 20 admitted stamps. *)
Lemma sliding_window_log_witness :
  _get_rate_limit_config default_user_type = Ok {| limit := 20; window := 60 |}
  ∧ records (empty_world tt) ("rate_limit:" +:+ "u1") = []
  ∧ StronglySorted Z.le
      ((burst 20 ++ [(seconds 1000 + 800000, seconds 1000 + 801000)]).*2)
  ∧ 20 ≤ Z.of_nat
           (length
              (in_window 60 (seconds 1000 + 801000)
                 (admitted_stamps
                    (fst (run_checks None "u1" default_user_type (burst 20) (empty_world tt)))
                    (burst 20)))).
Proof.
  assert (Hcfg : _get_rate_limit_config default_user_type
                 = Ok {| limit := 20; window := 60 |}) by reflexivity.
  assert (Hempty : records (empty_world tt) ("rate_limit:" +:+ "u1") = []) by reflexivity.
  assert (Hsorted : StronglySorted Z.le
            ((burst 20 ++ [(seconds 1000 + 800000, seconds 1000 + 801000)]).*2)).
  { apply (bool_decide_unpack _). vm_compute. exact I. }
  split; [exact Hcfg|]. split; [exact Hempty|]. split; [exact Hsorted|].
  pose proof (sliding_window_log (empty_world tt) "u1" default_user_type
                {| limit := 20; window := 60 |} (burst 20)
                (seconds 1000 + 800000) (seconds 1000 + 801000)
                Hcfg Hempty Hsorted) as H.
  cbv zeta in H.
  change (snd (run_checks None "u1" default_user_type (burst 20) (empty_world tt)))
    with (world_after_burst 20) in H.
  rewrite late_call_rejected in H.
  exact (proj1 H).
Defined.

(** X4. On the fallback store a key that holds at most [limit] records holds
    at most [limit] records after any sequence of calls for it under the
    same tier, whatever the clock reads. *)
Theorem fallback_store_bounded {R} (w : World R) (uid ut : string) (cfg : Config)
    (calls : list (time * time)) :
  _get_rate_limit_config ut = Ok cfg →
  Z.of_nat (length (records w ("rate_limit:" +:+ uid))) ≤ limit cfg →
  Z.of_nat (length (records (snd (run_checks None uid ut calls w)) ("rate_limit:" +:+ uid)))
    ≤ limit cfg.
Proof.
  intros Hcfg. revert w. induction calls as [|[t0 t1] calls IH]; intros w Hle; [exact Hle|].
  simpl.
  assert (Hstep : Z.of_nat (length (records (snd (check_rate_limit None uid ut t0 t1 w))
                                      ("rate_limit:" +:+ uid))) ≤ limit cfg).
  { pose proof (length_filter (fun t => t1 - seconds (window cfg) < t)
                  (records w ("rate_limit:" +:+ uid))) as Hfilter.
    fold (in_window (window cfg) t1 (records w ("rate_limit:" +:+ uid))) in Hfilter.
    destruct (check_rate_limit_memory_spec w uid ut cfg t0 t1 Hcfg)
      as [(_ & m & _ & Hrun)|(Hlt & w1 & Hrun & Hrec & _)]; cbv zeta in *; rewrite Hrun; simpl.
    - rewrite records_after_fetch. lia.
    - rewrite Hrec, length_app. simpl. lia. }
  destruct (check_rate_limit None uid ut t0 t1 w) as [r w1].
  specialize (IH w1 Hstep).
  by destruct (run_checks None uid ut calls w1) as [rs w2].
Qed.

(** Whatever the 25 calls of the burst, the store holds at most 20 records. *)
Lemma fallback_store_bounded_witness :
  _get_rate_limit_config default_user_type = Ok {| limit := 20; window := 60 |}
  ∧ Z.of_nat (length (records (empty_world tt) ("rate_limit:" +:+ "u1"))) ≤ 20
  ∧ Z.of_nat (length (records (world_after_burst 25) ("rate_limit:" +:+ "u1"))) ≤ 20.
Proof.
  assert (Hcfg : _get_rate_limit_config default_user_type
                 = Ok {| limit := 20; window := 60 |}) by reflexivity.
  assert (Hle : Z.of_nat (length (records (empty_world tt) ("rate_limit:" +:+ "u1"))) ≤ 20)
    by (vm_compute; discriminate).
  split; [exact Hcfg|]. split; [exact Hle|].
  exact (fallback_store_bounded (empty_world tt) "u1" default_user_type
           {| limit := 20; window := 60 |} (burst 25) Hcfg Hle).
Defined.

(** X5. On the fallback store a rejection stands until its [reset_time]:
    with the records of the key as the rejection left them, every call for
    the key and tier whose fetch reads the clock before that [reset_time] is
    rejected, with the same [reset_time] and the same [current_usage]. *)
Theorem rejected_until_reset {R} (w w' w2 : World R) (uid ut : string)
    (t0 t1 t0' t1' : time) (code : Z) (d : Rejected.t) :
  check_rate_limit None uid ut t0 t1 w = (Raise (HTTPException code (DetailRate d)), w') →
  records w2 ("rate_limit:" +:+ uid) = records w' ("rate_limit:" +:+ uid) →
  t1' < Rejected.reset_time d →
  ∃ d' w3,
    check_rate_limit None uid ut t0' t1' w2
    = (Raise (HTTPException HTTP_429_TOO_MANY_REQUESTS (DetailRate d')), w3)
    ∧ Rejected.reset_time d' = Rejected.reset_time d
    ∧ Rejected.current_usage d' = Rejected.current_usage d
    ∧ records w3 ("rate_limit:" +:+ uid) = records w' ("rate_limit:" +:+ uid).
Proof.
  intros Hrun Hsame Hbefore.
  destruct (_get_rate_limit_config ut) as [cfg|err] eqn:Hcfg;
    [|by rewrite get_rate_limit_config_eq in Hcfg].
  destruct (check_rate_limit_memory_spec w uid ut cfg t0 t1 Hcfg)
    as [(Hge & m & Hm & Hrej)|(_ & w1 & Hadm & _)]; [|congruence].
  cbv zeta in *. rewrite Hrej in Hrun. injection Hrun as _ <- <-. simpl in *.
  rewrite records_after_fetch in Hsame.
  set (xs := in_window (window cfg) t1 (records w ("rate_limit:" +:+ uid))) in *.
  destruct (list_min_nonempty xs) as (m' & Hm' & _ & Hall).
  { apply config_positive in Hcfg. lia. }
  assert (m' = m) as -> by congruence.
  assert (Hkeep : in_window (window cfg) t1' (records w2 ("rate_limit:" +:+ uid)) = xs).
  { rewrite Hsame. apply in_window_all.
    eapply Forall_impl; [exact Hall|]. simpl. intros x Hx. lia. }
  eexists _, _. split.
  - apply (check_rate_limit_memory_reject w2 uid ut cfg t0' t1' m Hcfg);
      rewrite Hkeep; assumption.
  - simpl. rewrite Hkeep. split; [reflexivity|]. split; [reflexivity|].
    rewrite !records_after_fetch. by rewrite Hkeep.
Qed.

(** One second before the reset time of the rejection that follows the
    burst, the user is rejected again, with the same reset time. *)
Lemma rejected_until_reset_witness :
  check_rate_limit None "u1" default_user_type
    (seconds 1000 + 800000) (seconds 1000 + 801000) (world_after_burst 20)
  = (Raise (HTTPException 429 (DetailRate late_detail)), late_world)
  ∧ seconds 1059 < Rejected.reset_time late_detail
  ∧ ∃ d' w3,
      check_rate_limit None "u1" default_user_type (seconds 1058) (seconds 1059) late_world
      = (Raise (HTTPException HTTP_429_TOO_MANY_REQUESTS (DetailRate d')), w3)
      ∧ Rejected.reset_time d' = Rejected.reset_time late_detail.
Proof.
  assert (Hbefore : seconds 1059 < Rejected.reset_time late_detail)
    by (vm_compute; reflexivity).
  split; [exact late_call_rejected|]. split; [exact Hbefore|].
  destruct (rejected_until_reset (world_after_burst 20) late_world late_world
              "u1" default_user_type
              (seconds 1000 + 800000) (seconds 1000 + 801000)
              (seconds 1058) (seconds 1059) 429 late_detail
              late_call_rejected eq_refl Hbefore)
    as (d' & w3 & Hrun & Hreset & _).
  exists d', w3. split; [exact Hrun|exact Hreset].
Defined.

(** ** The limiter on a failing or misbehaving backend *)

Lemma floats_of_other requests text :
  StrOther text ∈ requests → ∃ e, floats_of requests = Raise e.
Proof.
  induction requests as [|req rest IH]; intros Hin; [by apply elem_of_nil in Hin|].
  apply elem_of_cons in Hin as [<-|Hin]; simpl; [by eexists|].
  destruct req as [t|s]; simpl; [|by eexists].
  destruct (IH Hin) as [e ->]. by eexists.
Qed.

(** X6. With the shared backend active the limiter fails open.  When the
    fetch fails (a command raises, or a stored member is not the text of a
    float) it yields an empty list, and the call is admitted with
    [remaining = limit - 1], however many requests the key has made. *)
Theorem fetch_failure_admits {R} (c : RedisClient R) (w : World R)
    (uid ut : string) (cfg : Config) (t0 t1 : time) :
  _get_rate_limit_config ut = Ok cfg →
  fetch_fails c ("rate_limit:" +:+ uid) (window cfg) t1 (redis w) →
  (∃ s, _get_requests_from_redis c ("rate_limit:" +:+ uid) (window cfg) t1 w
        = (Ok [], set_redis w s))
  ∧ ∃ w',
      check_rate_limit (Some c) uid ut t0 t1 w
      = (Ok {| Admission.allowed := true;
               Admission.limit := limit cfg;
               Admission.remaining := limit cfg - 1;
               Admission.reset_time := t0 + seconds (window cfg) |}, w').
Proof.
  intros Hcfg Hfail.
  assert (Hfetch : ∃ s, _get_requests_from_redis c ("rate_limit:" +:+ uid) (window cfg) t1 w
                        = (Ok [], set_redis w s)).
  { unfold _get_requests_from_redis, try_except, bind, redis_call, lift, ret.
    destruct Hfail as [(e & s' & H1)|[(n & s1 & e & s' & H1 & H2)
                                     |(n & s1 & reqs & s' & text & H1 & H2 & Hin)]].
    - rewrite H1. by eexists.
    - rewrite H1. simpl. rewrite H2. by eexists.
    - rewrite H1. simpl. rewrite H2. simpl.
      destruct (floats_of_other reqs text Hin) as [e ->]. by eexists. }
  split; [exact Hfetch|]. destruct Hfetch as [s Hfetch].
  destruct (check_rate_limit_redis_spec c w uid ut cfg t0 t1 Hcfg)
    as (xs & s1 & Hfetch' & Hcases).
  rewrite Hfetch in Hfetch'. injection Hfetch' as <- _.
  destruct Hcases as [(Hge & _)|(_ & s2 & _ & Hrun)].
  - apply config_positive in Hcfg. simpl in Hge. lia.
  - eexists. rewrite Hrun. simpl. do 3 f_equal. lia.
Qed.

(** With the server down the first call of a user is admitted with 19
    remaining, and so is every later one. *)
Lemma fetch_failure_admits_witness :
  _get_rate_limit_config default_user_type = Ok {| limit := 20; window := 60 |}
  ∧ fetch_fails down_client ("rate_limit:" +:+ "u1") 60 (seconds 1000) tt
  ∧ ∃ w',
      check_rate_limit (Some down_client) "u1" default_user_type
        (seconds 1000) (seconds 1000) (empty_world tt)
      = (Ok {| Admission.allowed := true;
               Admission.limit := 20;
               Admission.remaining := 20 - 1;
               Admission.reset_time := seconds 1000 + seconds 60 |}, w').
Proof.
  assert (Hcfg : _get_rate_limit_config default_user_type
                 = Ok {| limit := 20; window := 60 |}) by reflexivity.
  assert (Hfail : fetch_fails down_client ("rate_limit:" +:+ "u1") 60 (seconds 1000) tt).
  { left. by eexists _, _. }
  split; [exact Hcfg|]. split; [exact Hfail|].
  exact (proj2 (fetch_failure_admits down_client (empty_world tt) "u1" default_user_type
                  {| limit := 20; window := 60 |} (seconds 1000) (seconds 1000)
                  Hcfg Hfail)).
Defined.

(** X7. With the shared backend active, whatever the client does, an
    admission returns [remaining = limit - len(recent) - 1] for the list
    the fetch returned, which lies between 0 and [limit - 1]; the list is
    the caller's own, and the call creates and changes no list of the
    fallback store. *)
Theorem redis_remaining_in_range {R} (c : RedisClient R) (w w' : World R)
    (uid ut : string) (cfg : Config) (t0 t1 : time) (a : Admission.t) :
  _get_rate_limit_config ut = Ok cfg →
  check_rate_limit (Some c) uid ut t0 t1 w = (Ok a, w') →
  0 ≤ Admission.remaining a < limit cfg
  ∧ Admission.allowed a = true
  ∧ Admission.limit a = limit cfg
  ∧ Admission.reset_time a = t0 + seconds (window cfg)
  ∧ ∃ xs s,
      _get_requests_from_redis c ("rate_limit:" +:+ uid) (window cfg) t1 w
      = (Ok xs, set_redis w s)
      ∧ Admission.remaining a = limit cfg - Z.of_nat (length xs) - 1
      ∧ memory_store w' = memory_store w
      ∧ heap w' = heap w
      ∧ next_loc w' = next_loc w.
Proof.
  intros Hcfg Hrun.
  destruct (check_rate_limit_redis_spec c w uid ut cfg t0 t1 Hcfg)
    as (xs & s1 & Hfetch & [(_ & m & _ & Hrej)|(Hlt & s2 & _ & Hadm)]); [congruence|].
  rewrite Hadm in Hrun. injection Hrun as <- <-. simpl.
  split; [lia|]. do 3 (split; [reflexivity|]).
  exists xs, s1. split; [exact Hfetch|]. by repeat split.
Qed.

Lemma check_on_five_members :
  check_rate_limit (Some zset_server) "u1" default_user_type
    (seconds 1005 + 500000) (seconds 1006) (empty_world five_members)
  = (Ok {| Admission.allowed := true;
           Admission.limit := 20;
           Admission.remaining := 14;
           Admission.reset_time := seconds 1065 + 500000 |},
     empty_world six_members).
Proof. vm_compute. reflexivity. Qed.

(** On the server of the examples, the call that finds five members is
    admitted with 14 remaining, and writes the sixth. *)
Lemma redis_remaining_in_range_witness :
  _get_rate_limit_config default_user_type = Ok {| limit := 20; window := 60 |}
  ∧ check_rate_limit (Some zset_server) "u1" default_user_type
      (seconds 1005 + 500000) (seconds 1006) (empty_world five_members)
    = (Ok {| Admission.allowed := true;
             Admission.limit := 20;
             Admission.remaining := 14;
             Admission.reset_time := seconds 1065 + 500000 |},
       empty_world six_members)
  ∧ 0 ≤ 14 < 20.
Proof.
  assert (Hcfg : _get_rate_limit_config default_user_type
                 = Ok {| limit := 20; window := 60 |}) by reflexivity.
  split; [exact Hcfg|]. split; [exact check_on_five_members|].
  exact (proj1 (redis_remaining_in_range zset_server (empty_world five_members)
                  (empty_world six_members)
                  "u1" default_user_type {| limit := 20; window := 60 |}
                  (seconds 1005 + 500000) (seconds 1006)
                  {| Admission.allowed := true;
                     Admission.limit := 20;
                     Admission.remaining := 14;
                     Admission.reset_time := seconds 1065 + 500000 |}
                  Hcfg check_on_five_members)).
Defined.

(** * Properties of the embedding client *)

Section GeminiFacts.
Context {V F : Type} (zero : F) (isspace : N → bool).
Context (embed_content : string → list N → string → V → Result (list F) * V).

Local Abbreviation lstrip := (Gemini.lstrip isspace).
Local Abbreviation strip := (Gemini.strip isspace).
Local Abbreviation _embed_text_attempt := (Gemini._embed_text_attempt zero isspace embed_content).
Local Abbreviation _embed_text := (Gemini._embed_text zero isspace embed_content).
Local Abbreviation embed_step := (Gemini.embed_step zero isspace embed_content).
Local Abbreviation embed_loop := (Gemini.embed_loop zero isspace embed_content).
Local Abbreviation embed_documents := (Gemini.embed_documents zero isspace embed_content).
Local Abbreviation embed_query := (Gemini.embed_query zero isspace embed_content).
Local Abbreviation health_check := (Gemini.health_check zero isspace embed_content).

Lemma lstrip_nil text : lstrip text = [] ↔ blank isspace text.
Proof.
  unfold blank. induction text as [|ch rest IH]; simpl; [split; [constructor|done]|].
  destruct (isspace ch) eqn:Hch.
  - rewrite IH. split; [by constructor|]. by intros [_ ?]%Forall_cons.
  - split; [discriminate|]. intros [Hc _]%Forall_cons. congruence.
Qed.

Lemma lstrip_suffix text : ∃ pre, text = pre ++ lstrip text ∧ blank isspace pre.
Proof.
  induction text as [|ch rest IH]; simpl; [exists []; split; [done|constructor]|].
  destruct (isspace ch) eqn:Hch.
  - destruct IH as (pre & Heq & Hpre). exists (ch :: pre). split.
    + simpl. by rewrite <- Heq.
    + by constructor.
  - exists []. split; [done|constructor].
Qed.

(** [text.strip()] is empty exactly for a blank text. *)
Lemma strip_nil text : strip text = [] ↔ blank isspace text.
Proof.
  unfold Gemini.strip. split.
  - intros H. apply (f_equal reverse) in H. rewrite reverse_involutive, reverse_nil in H.
    apply lstrip_nil in H. unfold blank in *. rewrite Forall_reverse in H.
    destruct (lstrip_suffix text) as (pre & Heq & Hpre).
    rewrite Heq. apply Forall_app. split; [exact Hpre|exact H].
  - intros H. apply lstrip_nil in H. rewrite H. done.
Qed.

Lemma blank_test text :
  Gemini.falsy text || Gemini.falsy (strip text) = true ↔ blank isspace text.
Proof.
  rewrite <- strip_nil. destruct text as [|ch rest]; simpl; [done|].
  destruct (strip (ch :: rest)); simpl; split; done.
Qed.

Lemma blank_dec text : blank isspace text ∨ ¬ blank isspace text.
Proof. unfold blank. destruct (decide (Forall (fun ch => isspace ch = true) text)); auto. Qed.

(** One attempt on a blank text: the zero vector, and no request. *)
Lemma attempt_blank self text task (g : Gemini.State V) :
  blank isspace text →
  _embed_text_attempt self text task g = (Ok (replicate 768 zero), g).
Proof.
  intros H. apply blank_test in H. unfold Gemini._embed_text_attempt. by rewrite H.
Qed.

(** One attempt on any other text: one request, and an embedding that is
    not empty when it succeeds. *)
Lemma attempt_request self text task (g : Gemini.State V) :
  ¬ blank isspace text →
  ∃ r g',
    _embed_text_attempt self text task g = (r, g')
    ∧ Gemini.requests g' = Gemini.requests g ++ [request_for self text task]
    ∧ Gemini.sleeps g' = Gemini.sleeps g
    ∧ match r with
      | Ok embedding =>
          embedding ≠ []
          ∧ ∃ s, embed_content (Gemini.model_name self) (take (Z.to_nat 20000) text)
                   (Gemini.py_or task (Gemini.task_type self)) (Gemini.server g)
                 = (Ok embedding, s)
      | Raise _ => True
      end.
Proof.
  intros H. rewrite <- blank_test in H. apply not_true_is_false in H.
  unfold Gemini._embed_text_attempt. rewrite H.
  assert (Htake : (if 20000 <? Z.of_nat (length text) then take (Z.to_nat 20000) text
                   else text) = take (Z.to_nat 20000) text).
  { destruct (Z.ltb_spec 20000 (Z.of_nat (length text))); [done|].
    symmetry. apply take_ge. lia. }
  rewrite Htake.
  unfold Gemini.try_except, Gemini.bind, Gemini.call_embed_content, request_for.
  destruct (embed_content _ _ _ (Gemini.server g)) as [[emb|e] s] eqn:Hapi.
  - destruct emb as [|x emb]; simpl.
    + by eexists _, _.
    + eexists _, _. split; [reflexivity|]. simpl. repeat split; try done. by eexists.
  - by eexists _, _.
Qed.

Lemma wait_exponential_first : Gemini.wait_exponential 1 4 10 1 = 4.
Proof. reflexivity. Qed.

Lemma wait_exponential_second : Gemini.wait_exponential 1 4 10 (1 + 1) = 4.
Proof. reflexivity. Qed.

(** [_embed_text] on a text that is not blank: one to three requests, all
    the same, with a wait of four seconds between two of them; an embedding
    that is not empty, or an exception after the third request. *)
Lemma embed_text_nonblank self text task (g : Gemini.State V) :
  ¬ blank isspace text →
  ∃ k r g',
    _embed_text self text task g = (r, g')
    ∧ (1 ≤ k ≤ 3)%nat
    ∧ Gemini.requests g' = Gemini.requests g ++ replicate k (request_for self text task)
    ∧ Gemini.sleeps g' = Gemini.sleeps g ++ replicate (k - 1) (seconds 4)
    ∧ match r with
      | Ok embedding => embedding ≠ []
      | Raise _ => k = 3%nat
      end.
Proof.
  intros H. unfold Gemini._embed_text, Gemini.retry.
  change (3 - 1)%nat with 2%nat. cbn [Gemini.retry_from].
  rewrite wait_exponential_first, wait_exponential_second.
  destruct (attempt_request self text task g H) as (r1 & g1 & -> & Hq1 & Hs1 & Hr1).
  destruct r1 as [emb|e1].
  { exists 1%nat, (Ok emb), g1. split; [done|]. split; [lia|]. split; [exact Hq1|].
    split; [simpl; by rewrite app_nil_r|]. by destruct Hr1. }
  cbn [Gemini.time_sleep].
  match goal with |- context [_embed_text_attempt self text task ?h] =>
    destruct (attempt_request self text task h H) as (r2 & g2 & -> & Hq2 & Hs2 & Hr2) end.
  cbn [Gemini.requests Gemini.sleeps] in Hq2, Hs2.
  destruct r2 as [emb|e2].
  { exists 2%nat, (Ok emb), g2. split; [done|]. split; [lia|].
    split; [by rewrite Hq2, Hq1, <- app_assoc|].
    split; [by rewrite Hs2, Hs1|]. by destruct Hr2. }
  match goal with |- context [_embed_text_attempt self text task ?h] =>
    destruct (attempt_request self text task h H) as (r3 & g3 & -> & Hq3 & Hs3 & Hr3) end.
  cbn [Gemini.requests Gemini.sleeps] in Hq3, Hs3.
  exists 3%nat, r3, g3. split; [by destruct r3|]. split; [lia|].
  split; [by rewrite Hq3, Hq2, Hq1, <- !app_assoc|].
  split; [by rewrite Hs3, Hs2, Hs1, <- !app_assoc|].
  destruct r3; [by destruct Hr3|done].
Qed.

(** [_embed_text] on a blank text: the zero vector, and no request. *)
Lemma embed_text_blank_run self text task (g : Gemini.State V) :
  blank isspace text →
  _embed_text self text task g = (Ok (replicate 768 zero), g).
Proof.
  intros H. unfold Gemini._embed_text, Gemini.retry.
  change (3 - 1)%nat with 2%nat. cbn [Gemini.retry_from].
  by rewrite (attempt_blank self text task g H).
Qed.

(** X8. [_embed_text] answers a text that is empty or all white space with
    the vector of 768 zeros, as many as [get_embedding_dimension], without
    calling the service; for every other text it calls the service at least
    once. *)
Theorem embed_text_blank (self : Gemini.t F) (text : list N) (task : option string)
    (g : Gemini.State V) :
  (blank isspace text →
   _embed_text self text task g = (Ok (replicate 768 zero), g)
   ∧ Z.of_nat (length (replicate 768 zero)) = Gemini.get_embedding_dimension self)
  ∧ (Gemini.requests (snd (_embed_text self text task g)) = Gemini.requests g
     ↔ blank isspace text).
Proof.
  split.
  - intros H. split; [by apply embed_text_blank_run|]. by rewrite length_replicate.
  - split.
    + intros Hsame. destruct (blank_dec text) as [H|H]; [exact H|exfalso].
      destruct (embed_text_nonblank self text task g H) as (k & r & g' & Hrun & Hk & Hq & _).
      rewrite Hrun in Hsame. simpl in Hsame. rewrite Hq in Hsame.
      apply (f_equal length) in Hsame. rewrite length_app, length_replicate in Hsame. lia.
    + intros H. by rewrite (embed_text_blank_run self text task g H).
Qed.

(** X9. Whatever the text, the task and the attributes of the object
    ([max_retries] included), [_embed_text] sends the service at most three
    requests, all for the same content: the first 20000 code points of the
    text, never more, under the model of the object and the task given, or
    the task of the object when none is given. *)
Theorem embed_text_requests (self : Gemini.t F) (text : list N) (task : option string)
    (g : Gemini.State V) :
  ∃ k : nat,
    (k ≤ 3)%nat
    ∧ Gemini.requests (snd (_embed_text self text task g))
      = Gemini.requests g ++ replicate k (request_for self text task)
    ∧ Gemini.req_content (request_for self text task) `prefix_of` text
    ∧ Z.of_nat (length (Gemini.req_content (request_for self text task))) ≤ 20000
    ∧ Gemini.req_model (request_for self text task) = Gemini.model_name self
    ∧ (∀ name, name ≠ EmptyString → Gemini.py_or (Some name) (Gemini.task_type self) = name)
    ∧ Gemini.py_or None (Gemini.task_type self) = Gemini.task_type self.
Proof.
  assert (Htail : Gemini.req_content (request_for self text task) `prefix_of` text
                  ∧ Z.of_nat (length (Gemini.req_content (request_for self text task))) ≤ 20000
                  ∧ Gemini.req_model (request_for self text task) = Gemini.model_name self
                  ∧ (∀ name, name ≠ EmptyString →
                             Gemini.py_or (Some name) (Gemini.task_type self) = name)
                  ∧ Gemini.py_or None (Gemini.task_type self) = Gemini.task_type self).
  { split; [|split; [|split; [|split]]].
    - exists (drop (Z.to_nat 20000) text).
      change (Gemini.req_content (request_for self text task))
        with (take (Z.to_nat 20000) text).
      by rewrite take_drop.
    - change (Gemini.req_content (request_for self text task))
        with (take (Z.to_nat 20000) text).
      rewrite length_take. lia.
    - reflexivity.
    - intros [|a name] Hne; [done|reflexivity].
    - reflexivity. }
  destruct (blank_dec text) as [H|H].
  - exists 0%nat. split; [lia|]. rewrite (embed_text_blank_run self text task g H). simpl.
    split; [by rewrite app_nil_r|exact Htail].
  - destruct (embed_text_nonblank self text task g H) as (k & r & g' & Hrun & Hk & Hq & _).
    exists k. split; [lia|]. rewrite Hrun. simpl. split; [exact Hq|exact Htail].
Qed.

(** A returned embedding has at least one component: the zeros of a blank
    text, or an answer of the service that passed the emptiness test. *)
Lemma embed_text_ok_nonempty (self : Gemini.t F) (text : list N) (task : option string)
    (g g' : Gemini.State V) (embedding : list F) :
  _embed_text self text task g = (Ok embedding, g') → embedding ≠ [].
Proof.
  destruct (blank_dec text) as [H|H].
  - rewrite (embed_text_blank_run self text task g H). by intros [= <- _].
  - destruct (embed_text_nonblank self text task g H)
      as (k & r & g1 & -> & _ & _ & _ & Hr).
    destruct r; [|done]. by intros [= <- _].
Qed.

(** X10. An embedding returned by [_embed_text] is never empty, and
    [_embed_text] raises only for a text that is not blank, after exactly
    three requests. *)
Theorem embed_text_outcome (self : Gemini.t F) (text : list N) (task : option string)
    (g : Gemini.State V) :
  match _embed_text self text task g with
  | (Ok embedding, _) => embedding ≠ []
  | (Raise _, g') =>
      ¬ blank isspace text
      ∧ Gemini.requests g' = Gemini.requests g ++ replicate 3 (request_for self text task)
  end.
Proof.
  destruct (blank_dec text) as [H|H].
  - by rewrite (embed_text_blank_run self text task g H).
  - destruct (embed_text_nonblank self text task g H)
      as (k & r & g' & -> & Hk & Hq & _ & Hr).
    destruct r; [exact Hr|]. subst k. by split.
Qed.

(** One turn of the loop of [embed_documents], by the outcome of
    [_embed_text]: its embedding and then the pause of the indices 10, 20,
    ..., or the zero vector when it raises. *)
Lemma embed_step_spec self (i : Z) text acc (g : Gemini.State V) :
  match _embed_text self text (Some "retrieval_document") g with
  | (Ok embedding, h) =>
      embed_step self i text acc g
      = (Ok (acc ++ [embedding]),
         if (0 <? i) && (i mod 10 =? 0) then snd (Gemini.time_sleep 100000 h) else h)
  | (Raise _, h) => embed_step self i text acc g = (Ok (acc ++ [replicate 768 zero]), h)
  end.
Proof.
  unfold Gemini.embed_step, Gemini.try_except, Gemini.bind.
  destruct (_embed_text self text (Some "retrieval_document") g) as [[emb|e] h];
    [|reflexivity].
  by destruct ((0 <? i) && (i mod 10 =? 0)).
Qed.

Lemma gemini_bind_ok {A B} (m : Gemini.M V A) (k : A → Gemini.M V B) g a g' :
  m g = (Ok a, g') → Gemini.bind m k g = k a g'.
Proof. intros H. unfold Gemini.bind. by rewrite H. Qed.

(** The loop of [embed_documents] from the index [n0]: it never raises, and
    the text at position [j] is embedded in the state [hs !! j] that the
    turns before it have left. *)
Lemma embed_loop_results self texts : ∀ (n0 : nat) acc (g : Gemini.State V),
  ∃ embs hs g',
    embed_loop self (Z.of_nat n0) texts acc g = (Ok (acc ++ embs), g')
    ∧ length embs = length texts
    ∧ length hs = length texts
    ∧ (hs ++ [g']) !! 0%nat = Some g
    ∧ (∀ (j : nat) text h, texts !! j = Some text → hs !! j = Some h →
         match _embed_text self text (Some "retrieval_document") h with
         | (Ok embedding, h') =>
             embs !! j = Some embedding
             ∧ (hs ++ [g']) !! S j
               = Some (if (0 <? Z.of_nat (n0 + j)) && (Z.of_nat (n0 + j) mod 10 =? 0)
                       then snd (Gemini.time_sleep 100000 h') else h')
         | (Raise _, h') =>
             embs !! j = Some (replicate 768 zero)
             ∧ (hs ++ [g']) !! S j = Some h'
         end).
Proof.
  induction texts as [|text rest IH]; intros n0 acc g.
  - exists [], [], g. cbn [Gemini.embed_loop]. unfold Gemini.ret. rewrite app_nil_r.
    repeat split; try done.
  - cbn [Gemini.embed_loop].
    pose proof (embed_step_spec self (Z.of_nat n0) text acc g) as Hstep.
    destruct (_embed_text self text (Some "retrieval_document") g) as [r h] eqn:Hrun.
    set (emb := match r with Ok embedding => embedding | Raise _ => replicate 768 zero end).
    set (g1 := match r with
               | Ok _ => if (0 <? Z.of_nat n0) && (Z.of_nat n0 mod 10 =? 0)
                         then snd (Gemini.time_sleep 100000 h) else h
               | Raise _ => h
               end).
    assert (Hone : embed_step self (Z.of_nat n0) text acc g = (Ok (acc ++ [emb]), g1))
      by (subst emb g1; by destruct r).
    erewrite gemini_bind_ok by exact Hone.
    replace (Z.of_nat n0 + 1) with (Z.of_nat (S n0)) by lia.
    destruct (IH (S n0) (acc ++ [emb]) g1) as (embs & hs & g' & Hloop & Hlen & Hhs & Hhead & Hat).
    exists (emb :: embs), (g :: hs), g'.
    split; [by rewrite Hloop, <- app_assoc|].
    split; [simpl; by rewrite Hlen|].
    split; [simpl; by rewrite Hhs|].
    split; [reflexivity|].
    intros [|j] text' h' Hj Hh; simpl in Hj, Hh.
    + injection Hj as <-. injection Hh as <-. rewrite Hrun.
      rewrite Nat.add_0_r. cbn [lookup app list_lookup].
      subst emb g1. destruct r; (split; [reflexivity|exact Hhead]).
    + specialize (Hat j text' h' Hj Hh).
      replace (n0 + S j)%nat with (S n0 + j)%nat by lia.
      exact Hat.
Qed.

(** The answers of a service that looks at the request only. *)
Lemma embed_text_pure (reply : string → list N → string → Result (list F))
    self text task (g : Gemini.State V) :
  (∀ model content name s, fst (embed_content model content name s) = reply model content name) →
  ¬ blank isspace text →
  ∃ g',
    _embed_text self text task g
    = (match reply (Gemini.model_name self) (take (Z.to_nat 20000) text)
               (Gemini.py_or task (Gemini.task_type self)) with
       | Ok (x :: embedding) => Ok (x :: embedding)
       | Ok [] => Raise (ValueError "Empty embedding received")
       | Raise e => Raise e
       end, g').
Proof.
  intros Hpure H.
  assert (Hatt : ∀ h : Gemini.State V, ∃ h',
             _embed_text_attempt self text task h
             = (match reply (Gemini.model_name self) (take (Z.to_nat 20000) text)
                        (Gemini.py_or task (Gemini.task_type self)) with
                | Ok (x :: embedding) => Ok (x :: embedding)
                | Ok [] => Raise (ValueError "Empty embedding received")
                | Raise e => Raise e
                end, h')).
  { intros h. rewrite <- blank_test in H. apply not_true_is_false in H.
    unfold Gemini._embed_text_attempt. rewrite H.
    assert (Htake : (if 20000 <? Z.of_nat (length text) then take (Z.to_nat 20000) text
                     else text) = take (Z.to_nat 20000) text).
    { destruct (Z.ltb_spec 20000 (Z.of_nat (length text))); [done|].
      symmetry. apply take_ge. lia. }
    rewrite Htake.
    unfold Gemini.try_except, Gemini.bind, Gemini.call_embed_content.
    rewrite <- (Hpure (Gemini.model_name self) (take (Z.to_nat 20000) text)
                  (Gemini.py_or task (Gemini.task_type self)) (Gemini.server h)).
    destruct (embed_content _ _ _ (Gemini.server h)) as [[emb|e] s]; cbn [fst].
    - destruct emb; by eexists.
    - by eexists. }
  unfold Gemini._embed_text, Gemini.retry.
  change (3 - 1)%nat with 2%nat. cbn [Gemini.retry_from].
  destruct (Hatt g) as (g1 & ->).
  destruct (reply _ _ _) as [[|x emb]|e]; try by eexists.
  - cbn [Gemini.time_sleep].
    match goal with |- context [_embed_text_attempt self text task ?h] =>
      destruct (Hatt h) as (g2 & ->) end.
    match goal with |- context [_embed_text_attempt self text task ?h] =>
      destruct (Hatt h) as (g3 & ->) end.
    by eexists.
  - cbn [Gemini.time_sleep].
    match goal with |- context [_embed_text_attempt self text task ?h] =>
      destruct (Hatt h) as (g2 & ->) end.
    match goal with |- context [_embed_text_attempt self text task ?h] =>
      destruct (Hatt h) as (g3 & ->) end.
    by eexists.
Qed.

Lemma forallb_blank text : forallb isspace text = true ↔ blank isspace text.
Proof.
  unfold blank. induction text as [|ch rest IH]; simpl; [split; [constructor|done]|].
  rewrite andb_true_iff, IH. split.
  - intros [? ?]. by constructor.
  - by intros [? ?]%Forall_cons.
Qed.

(** X11. [embed_documents] never raises and returns exactly one embedding
    for each text, in the order of the texts: the embedding at position [j]
    is what [_embed_text] returns for the text at position [j] under the
    task [retrieval_document], in the state the texts before it have left,
    and the vector of 768 zeros when [_embed_text] raises.  None is empty,
    and a blank text gets the zeros.  With a service whose answer depends
    on the request only, the result is the list of the answers to the
    first 20000 code points of each text, with the zeros in the place of a
    blank text, a failed request or an empty answer.  The empty list of
    texts gives the empty list. *)
Theorem embed_documents_total (self : Gemini.t F) (texts : list (list N))
    (g : Gemini.State V) :
  ∃ embeddings hs g',
    embed_documents self texts g = (Ok embeddings, g')
    ∧ length embeddings = length texts
    ∧ length hs = length texts
    ∧ (hs ++ [g']) !! 0%nat = Some g
    ∧ (∀ (j : nat) text h, texts !! j = Some text → hs !! j = Some h →
         match _embed_text self text (Some "retrieval_document") h with
         | (Ok embedding, h') =>
             embeddings !! j = Some embedding
             ∧ (hs ++ [g']) !! S j
               = Some (if (0 <? Z.of_nat j) && (Z.of_nat j mod 10 =? 0)
                       then snd (Gemini.time_sleep 100000 h') else h')
         | (Raise _, h') =>
             embeddings !! j = Some (replicate 768 zero)
             ∧ (hs ++ [g']) !! S j = Some h'
         end)
    ∧ Forall (fun e => e ≠ []) embeddings
    ∧ (∀ j text, texts !! j = Some text → blank isspace text →
                 embeddings !! j = Some (replicate 768 zero))
    ∧ (∀ reply : string → list N → string → Result (list F),
         (∀ model content name s,
            fst (embed_content model content name s) = reply model content name) →
         embeddings
         = (fun text =>
              if forallb isspace text then replicate 768 zero
              else match reply (Gemini.model_name self) (take (Z.to_nat 20000) text)
                           "retrieval_document" with
                   | Ok (x :: embedding) => x :: embedding
                   | _ => replicate 768 zero
                   end) <$> texts)
    ∧ (texts = [] → embeddings = [] ∧ g' = g).
Proof.
  assert (Hz : replicate 768 zero ≠ []) by (by intros H%(f_equal length)).
  assert (Hrun : ∃ embeddings hs g',
             embed_documents self texts g = (Ok embeddings, g')
             ∧ length embeddings = length texts
             ∧ length hs = length texts
             ∧ (hs ++ [g']) !! 0%nat = Some g
             ∧ (∀ (j : nat) text h, texts !! j = Some text → hs !! j = Some h →
                  match _embed_text self text (Some "retrieval_document") h with
                  | (Ok embedding, h') =>
                      embeddings !! j = Some embedding
                      ∧ (hs ++ [g']) !! S j
                        = Some (if (0 <? Z.of_nat j) && (Z.of_nat j mod 10 =? 0)
                                then snd (Gemini.time_sleep 100000 h') else h')
                  | (Raise _, h') =>
                      embeddings !! j = Some (replicate 768 zero)
                      ∧ (hs ++ [g']) !! S j = Some h'
                  end)
             ∧ (texts = [] → embeddings = [] ∧ g' = g)).
  { unfold Gemini.embed_documents. destruct texts as [|text rest].
    - exists [], [], g. repeat split; done.
    - cbn [Gemini.falsy].
      destruct (embed_loop_results self (text :: rest) 0 [] g)
        as (embs & hs & g' & Hloop & Hlen & Hhs & Hhead & Hat).
      exists embs, hs, g'. change (Z.of_nat 0) with 0 in Hloop.
      split; [exact Hloop|]. split; [exact Hlen|]. split; [exact Hhs|].
      split; [exact Hhead|]. split; [exact Hat|]. done. }
  destruct Hrun as (embeddings & hs & g' & Hrun & Hlen & Hhs & Hhead & Hat & Hnil).
  exists embeddings, hs, g'.
  split; [exact Hrun|]. split; [exact Hlen|]. split; [exact Hhs|].
  split; [exact Hhead|]. split; [exact Hat|].
  assert (Hpos : ∀ (j : nat) text, texts !! j = Some text →
             ∃ h, hs !! j = Some h).
  { intros j text Hj. apply lookup_lt_is_Some. rewrite Hhs.
    by apply lookup_lt_Some in Hj. }
  split; [|split; [|split; [|exact Hnil]]].
  - apply Forall_lookup. intros j e He.
    destruct (lookup_lt_is_Some_2 texts j) as [text Hj].
    { rewrite <- Hlen. by apply lookup_lt_Some in He. }
    destruct (Hpos j text Hj) as [h Hh]. specialize (Hat j text h Hj Hh).
    destruct (_embed_text self text (Some "retrieval_document") h) as [[emb|err] h'] eqn:Hone.
    + destruct Hat as [Hat _]. rewrite He in Hat. injection Hat as ->.
      by apply embed_text_ok_nonempty in Hone.
    + destruct Hat as [Hat _]. rewrite He in Hat. by injection Hat as ->.
  - intros j text Hj Hb. destruct (Hpos j text Hj) as [h Hh].
    specialize (Hat j text h Hj Hh).
    rewrite (embed_text_blank_run self text _ h Hb) in Hat. by destruct Hat.
  - intros reply Hpure. apply list_eq. intros j. rewrite list_lookup_fmap.
    destruct (texts !! j) as [text|] eqn:Hj; simpl.
    + destruct (Hpos j text Hj) as [h Hh]. specialize (Hat j text h Hj Hh).
      destruct (forallb isspace text) eqn:Hb.
      * apply forallb_blank in Hb.
        rewrite (embed_text_blank_run self text _ h Hb) in Hat. by destruct Hat.
      * assert (Hnb : ¬ blank isspace text) by (rewrite <- forallb_blank; congruence).
        destruct (embed_text_pure reply self text (Some "retrieval_document") h Hpure Hnb)
          as (h' & Hone).
        rewrite Hone in Hat. cbn [Gemini.py_or] in Hat.
        destruct (reply _ _ _) as [[|x emb]|e]; by destruct Hat.
    + apply lookup_ge_None. rewrite Hlen. by apply lookup_ge_None in Hj.
Qed.

Lemma length_filter_replicate_eq (a : Z) (n : nat) :
  length (filter (fun d => d = a) (replicate n a)) = n.
Proof.
  induction n as [|n IH]; [done|]. cbn [replicate].
  rewrite filter_cons_True by done. simpl. by rewrite IH.
Qed.

Lemma length_filter_replicate_ne (a b : Z) (n : nat) :
  a ≠ b → length (filter (fun d => d = a) (replicate n b)) = 0%nat.
Proof.
  intros Hne. induction n as [|n IH]; [done|]. cbn [replicate].
  by rewrite filter_cons_False by done.
Qed.

(** The indices after which [embed_documents] pauses: 10, 20, ... *)
Lemma pauses_below (m : nat) :
  (10 * length (filter (fun j : nat => (0 <? Z.of_nat j)%Z && (Z.of_nat j mod 10 =? 0)%Z = true)
                  (seq 0 m)) ≤ m - 1)%nat.
Proof.
  assert (H : ∀ m : nat,
             Z.of_nat (length (filter (fun j : nat => (0 <? Z.of_nat j)%Z
                                                      && (Z.of_nat j mod 10 =? 0)%Z = true)
                                 (seq 0 (S m))))
             = Z.of_nat m / 10).
  { clear m. induction m as [|m IH]; [reflexivity|].
    rewrite seq_S, filter_app, length_app, Nat2Z.inj_add, IH. cbn [Nat.add].
    destruct ((0 <? Z.of_nat (S m)) && (Z.of_nat (S m) mod 10 =? 0)) eqn:Hp.
    - rewrite filter_cons_True by done. rewrite filter_nil. cbn [length].
      apply andb_true_iff in Hp as [_ Hp]. apply Z.eqb_eq in Hp.
      Z.to_euclidean_division_equations. lia.
    - rewrite filter_cons_False by (by rewrite Hp). rewrite filter_nil. cbn [length].
      apply andb_false_iff in Hp as [Hp|Hp]; [apply Z.ltb_ge in Hp; lia|].
      apply Z.eqb_neq in Hp.
      Z.to_euclidean_division_equations. lia. }
  destruct m as [|m]; [simpl; lia|].
  specialize (H m). Z.to_euclidean_division_equations. lia.
Qed.

(** What one turn of the loop sends and sleeps: the requests of
    [_embed_text], a wait of four seconds between two of them, and at most
    the pause of a tenth of a second, after an index 10, 20, ... *)
Lemma embed_step_effects self (i : Z) text acc (g : Gemini.State V) :
  ∃ (k p : nat) r g1,
    embed_step self i text acc g = (Ok r, g1)
    ∧ Gemini.requests g1
      = Gemini.requests g ++ replicate k (request_for self text (Some "retrieval_document"))
    ∧ Gemini.sleeps g1
      = Gemini.sleeps g ++ replicate (k - 1) (seconds 4) ++ replicate p 100000
    ∧ (k ≤ 3)%nat
    ∧ (forallb isspace text = true → k = 0%nat)
    ∧ (forallb isspace text = false → (1 ≤ k)%nat)
    ∧ (p ≤ 1)%nat
    ∧ (p = 1%nat → (0 <? i) && (i mod 10 =? 0) = true).
Proof.
  pose proof (embed_step_spec self i text acc g) as Hstep.
  destruct (forallb isspace text) eqn:Hb.
  - apply forallb_blank in Hb.
    rewrite (embed_text_blank_run self text _ g Hb) in Hstep.
    destruct ((0 <? i) && (i mod 10 =? 0)) eqn:Hp.
    + exists 0%nat, 1%nat. eexists _, _. split; [exact Hstep|].
      cbn [Gemini.time_sleep snd Gemini.requests Gemini.sleeps replicate Nat.sub app].
      rewrite app_nil_r. repeat split; try done; lia.
    + exists 0%nat, 0%nat. eexists _, _. split; [exact Hstep|].
      cbn [replicate Nat.sub app]. rewrite !app_nil_r. repeat split; try done; lia.
  - assert (Hnb : ¬ blank isspace text) by (rewrite <- forallb_blank; congruence).
    destruct (embed_text_nonblank self text (Some "retrieval_document") g Hnb)
      as (k & r & g' & Hrun & Hk & Hq & Hs & Hr).
    rewrite Hrun in Hstep. destruct r as [emb|e].
    + destruct ((0 <? i) && (i mod 10 =? 0)) eqn:Hp.
      * exists k, 1%nat. eexists _, _. split; [exact Hstep|].
        cbn [Gemini.time_sleep snd Gemini.requests Gemini.sleeps replicate].
        rewrite Hs, <- app_assoc. repeat split; try done; lia.
      * exists k, 0%nat. eexists _, _. split; [exact Hstep|].
        cbn [replicate]. rewrite app_nil_r. repeat split; try done; lia.
    + exists k, 0%nat. eexists _, _. split; [exact Hstep|].
      cbn [replicate]. rewrite app_nil_r. repeat split; try done; lia.
Qed.

Lemma seconds_4_not_pause : seconds 4 ≠ 100000.
Proof. unfold seconds, ticks_per_second. lia. Qed.

(** The requests and the sleeps of the loop of [embed_documents]. *)
Lemma embed_loop_effects self texts : ∀ (n0 : nat) acc (g : Gemini.State V),
  ∃ news naps,
    Gemini.requests (snd (embed_loop self (Z.of_nat n0) texts acc g))
    = Gemini.requests g ++ news
    ∧ Gemini.sleeps (snd (embed_loop self (Z.of_nat n0) texts acc g))
      = Gemini.sleeps g ++ naps
    ∧ (length news ≤ 3 * length texts)%nat
    ∧ Forall (fun r => ∃ text, text ∈ texts
                               ∧ r = request_for self text (Some "retrieval_document")) news
    ∧ Forall (fun d => d = seconds 4 ∨ d = 100000) naps
    ∧ (length (filter (fun d => d = seconds 4%Z) naps)
       + length (filter (fun text => forallb isspace text = false) texts)
       = length news)%nat
    ∧ (length (filter (fun d => d = seconds 4%Z) naps)
       ≤ 2 * length (filter (fun text => forallb isspace text = false) texts))%nat
    ∧ (length (filter (fun d => d = 100000%Z) naps)
       ≤ length (filter (fun j : nat => (0 <? Z.of_nat j)%Z && (Z.of_nat j mod 10 =? 0)%Z = true)
                   (seq n0 (length texts))))%nat.
Proof.
  induction texts as [|text rest IH]; intros n0 acc g.
  - exists [], []. cbn [Gemini.embed_loop]. unfold Gemini.ret. cbn [snd].
    rewrite !app_nil_r. repeat split; try done; try constructor.
  - cbn [Gemini.embed_loop].
    destruct (embed_step_effects self (Z.of_nat n0) text acc g)
      as (k & p & r & g1 & Hone & Hq1 & Hs1 & Hk & Hk0 & Hk1 & Hp & Hpause).
    erewrite gemini_bind_ok by exact Hone.
    replace (Z.of_nat n0 + 1) with (Z.of_nat (S n0)) by lia.
    destruct (IH (S n0) r g1)
      as (news & naps & Hq & Hs & Hn & Hreq & Hnaps & Hwaits & Hbound & Hpauses).
    exists (replicate k (request_for self text (Some "retrieval_document")) ++ news),
      (replicate (k - 1) (seconds 4) ++ replicate p 100000 ++ naps).
    split; [by rewrite Hq, Hq1, <- app_assoc|].
    split; [by rewrite Hs, Hs1, <- !app_assoc|].
    split; [rewrite length_app, length_replicate; simpl; lia|].
    split.
    { apply Forall_app. split.
      - apply Forall_replicate. exists text. split; [apply list_elem_of_here|done].
      - eapply Forall_impl; [exact Hreq|]. intros q (text' & Hin & ->).
        exists text'. split; [by apply list_elem_of_further|done]. }
    split.
    { apply Forall_app. split; [apply Forall_replicate; by left|].
      apply Forall_app. split; [apply Forall_replicate; by right|exact Hnaps]. }
    split.
    { rewrite !filter_app, !length_app, length_filter_replicate_eq, length_replicate.
      rewrite (length_filter_replicate_ne (seconds 4) 100000) by exact seconds_4_not_pause.
      destruct (forallb isspace text) eqn:Hb.
      - rewrite filter_cons_False by (by rewrite Hb). rewrite (Hk0 eq_refl). simpl. lia.
      - rewrite filter_cons_True by exact Hb. specialize (Hk1 eq_refl). simpl. lia. }
    split.
    { rewrite !filter_app, !length_app, length_filter_replicate_eq.
      rewrite (length_filter_replicate_ne (seconds 4) 100000) by exact seconds_4_not_pause.
      destruct (forallb isspace text) eqn:Hb.
      - rewrite filter_cons_False by (by rewrite Hb). rewrite (Hk0 eq_refl). simpl. lia.
      - rewrite filter_cons_True by exact Hb. simpl. lia. }
    rewrite !filter_app, !length_app, length_filter_replicate_eq.
    rewrite (length_filter_replicate_ne 100000 (seconds 4))
      by (intros H; symmetry in H; by apply seconds_4_not_pause).
    cbn [length seq].
    destruct ((0 <? Z.of_nat n0) && (Z.of_nat n0 mod 10 =? 0)) eqn:Hi.
    + rewrite filter_cons_True by exact Hi. simpl. lia.
    + rewrite filter_cons_False by (by rewrite Hi).
      assert (p = 0%nat) as ->.
      { destruct p as [|[|p]]; [done| |lia]. specialize (Hpause eq_refl). congruence. }
      simpl. lia.
Qed.


(** X13. When every request to the service fails, [embed_documents] still
    returns: every text gets the vector of 768 zeros, as a blank text does,
    while [embed_query] raises for every text that is not blank. *)
Theorem embed_documents_service_down (self : Gemini.t F) (texts : list (list N))
    (g : Gemini.State V) :
  (∀ model content task s, ∃ e s', embed_content model content task s = (Raise e, s')) →
  (∃ g', embed_documents self texts g
         = (Ok (replicate (length texts) (replicate 768 zero)), g'))
  ∧ (∀ text, ¬ blank isspace text → ∃ e g', embed_query self text g = (Raise e, g')).
Proof.
  intros Hdown.
  assert (Hraise : ∀ text task (g0 : Gemini.State V), ¬ blank isspace text →
             ∃ e g', _embed_text self text task g0 = (Raise e, g')).
  { intros text task g0 H.
    assert (Hatt : ∀ g1 : Gemini.State V,
               ∃ e g', _embed_text_attempt self text task g1 = (Raise e, g')).
    { intros g1. destruct (attempt_request self text task g1 H) as (r & g' & Hrun & _ & _ & Hr).
      destruct r as [emb|e]; [|by eexists _, _].
      destruct Hr as (_ & s & Hs).
      destruct (Hdown (Gemini.model_name self) (take (Z.to_nat 20000) text)
                  (Gemini.py_or task (Gemini.task_type self)) (Gemini.server g1))
        as (e & s' & Hd). congruence. }
    unfold Gemini._embed_text, Gemini.retry.
    change (3 - 1)%nat with 2%nat. cbn [Gemini.retry_from Gemini.time_sleep].
    destruct (Hatt g0) as (e1 & g1 & ->).
    match goal with |- context [_embed_text_attempt self text task ?h] =>
      destruct (Hatt h) as (e2 & g2 & ->) end.
    match goal with |- context [_embed_text_attempt self text task ?h] =>
      destruct (Hatt h) as (e3 & g3 & ->) end.
    by eexists _, _. }
  split.
  - unfold Gemini.embed_documents. destruct texts as [|text rest]; [by eexists|].
    cbn [Gemini.falsy].
    assert (Hloop : ∀ ts (i : Z) acc (g0 : Gemini.State V),
               ∃ g', embed_loop self i ts acc g0
                     = (Ok (acc ++ replicate (length ts) (replicate 768 zero)), g')).
    { induction ts as [|t ts IH]; intros i acc g0.
      - exists g0. cbn [Gemini.embed_loop]. unfold Gemini.ret. simpl. by rewrite app_nil_r.
      - cbn [Gemini.embed_loop].
        assert (Hstep : ∃ g1, embed_step self i t acc g0
                              = (Ok (acc ++ [replicate 768 zero]), g1)).
        { unfold Gemini.embed_step, Gemini.try_except, Gemini.bind.
          destruct (blank_dec t) as [H|H].
          - rewrite (embed_text_blank_run self t _ g0 H).
            destruct ((0 <? i) && (i mod 10 =? 0)); by eexists.
          - destruct (Hraise t (Some "retrieval_document") g0 H) as (e & g' & ->).
            by eexists. }
        destruct Hstep as (g1 & Hstep). erewrite gemini_bind_ok by exact Hstep.
        destruct (IH (i + 1) (acc ++ [replicate 768 zero]) g1) as (g' & ->).
        exists g'. cbn [length replicate]. by rewrite <- app_assoc. }
    destruct (Hloop (text :: rest) 0 [] g) as (g' & ->). by exists g'.
  - intros text H. unfold Gemini.embed_query, Gemini.try_except, Gemini.bind.
    destruct (Hraise text (Some "retrieval_query") g H) as (e & g' & ->).
    by eexists _, _.
Qed.

(** X14. [health_check] never raises: it returns [True] when [_embed_text]
    returns for its test text under the task of the object, and [False]
    when [_embed_text] raises. *)
Theorem health_check_total (self : Gemini.t F) (g : Gemini.State V) :
  match _embed_text self (Gemini.code_points "Health check test") None g with
  | (Ok _, g') => health_check self g = (Ok true, g')
  | (Raise _, g') => health_check self g = (Ok false, g')
  end.
Proof.
  unfold Gemini.health_check, Gemini.try_except, Gemini.bind.
  destruct (_embed_text self (Gemini.code_points "Health check test") None g)
    as [[emb|e] g'] eqn:Hrun; [|reflexivity].
  apply embed_text_ok_nonempty in Hrun.
  unfold Gemini.ret. destruct emb; [done|reflexivity].
Qed.

End GeminiFacts.

(** With the service down, a menu line and a blank line both get zeros. *)
Lemma embed_documents_service_down_witness :
  (∀ model content task s, ∃ e s', service_down model content task s = (Raise e, s'))
  ∧ ∃ g',
      Gemini.embed_documents 0 only_space service_down default_embeddings
        [Gemini.code_points "Menu"; Gemini.code_points "  "] fresh_service
      = (Ok (replicate 2 (replicate 768 0)), g').
Proof.
  assert (Hdown : ∀ model content task s,
             ∃ e s', service_down model content task s = (Raise e, s')).
  { intros model content task s. by eexists _, _. }
  split; [exact Hdown|].
  exact (proj1 (embed_documents_service_down 0 only_space service_down default_embeddings
                  [Gemini.code_points "Menu"; Gemini.code_points "  "] fresh_service
                  Hdown)).
Defined.

(** With a service that answers a request with the code points it was
    sent, a menu line gets its own answer and a blank line the zeros. *)
Lemma embed_documents_total_witness :
  ∃ g',
    Gemini.embed_documents 0 only_space echo_service default_embeddings
      [Gemini.code_points "Menu"; Gemini.code_points "  "] fresh_service
    = (Ok [[77; 101; 110; 117]; replicate 768 0], g').
Proof.
  destruct (embed_documents_total 0 only_space echo_service default_embeddings
              [Gemini.code_points "Menu"; Gemini.code_points "  "] fresh_service)
    as (embeddings & hs & g' & Hrun & _ & _ & _ & _ & _ & _ & Hpure & _).
  exists g'. rewrite Hrun.
  rewrite (Hpure (fun _ content _ => Ok (Z.of_N <$> content)) (fun _ _ _ _ => eq_refl)).
  reflexivity.
Defined.

(** * Properties of the session histories *)

Section SessionFacts.
Context {V : Type}.
Context (json_loads : string → Sessions.Res Sessions.Json).
Context (json_dumps : Sessions.Json → string).
Context (validate_content : Sessions.Json → Sessions.Res Sessions.Json).

Lemma sessions_bind_done {A B} (m : Sessions.M V A) (k : A → Sessions.M V B) st a st' :
  m st = (Sessions.Done a, st') → Sessions.bind m k st = k a st'.
Proof. intros H. unfold Sessions.bind. by rewrite H. Qed.

(** The loop over the decoded messages touches the history it fills and
    nothing else. *)
Lemma add_decoded_frame h items : ∀ st : Sessions.State V,
  ∃ r st',
    Sessions.add_decoded validate_content h items st = (r, st')
    ∧ Sessions.memory_sessions st' = Sessions.memory_sessions st
    ∧ Sessions.next_history st' = Sessions.next_history st
    ∧ Sessions.server st' = Sessions.server st
    ∧ ∀ h', h' ≠ h → Sessions.histories st' !!! h' = Sessions.histories st !!! h'.
Proof.
  induction items as [|msg rest IH]; intros st; [by eexists _, _|].
  cbn [Sessions.add_decoded]. unfold Sessions.bind at 1, Sessions.lift at 1.
  destruct (Sessions.py_getitem msg "type") as [type|e]; [|by eexists _, _].
  unfold Sessions.bind at 1.
  assert (Hadd : ∃ r st1,
             (if Sessions.is_human type
              then Sessions.bind (Sessions.lift (Sessions.py_getitem msg "content"))
                     (fun c => Sessions.bind (Sessions.lift (validate_content c))
                                 (fun c0 => Sessions.add_message h (Sessions.HumanMessage c0)))
              else Sessions.bind (Sessions.lift (Sessions.py_getitem msg "content"))
                     (fun c => Sessions.bind (Sessions.lift (validate_content c))
                                 (fun c0 => Sessions.add_message h (Sessions.AIMessage c0))))
               st = (r, st1)
             ∧ Sessions.memory_sessions st1 = Sessions.memory_sessions st
             ∧ Sessions.next_history st1 = Sessions.next_history st
             ∧ Sessions.server st1 = Sessions.server st
             ∧ ∀ h', h' ≠ h → Sessions.histories st1 !!! h' = Sessions.histories st !!! h').
  { unfold Sessions.bind, Sessions.lift, Sessions.add_message.
    destruct (Sessions.is_human type);
      (destruct (Sessions.py_getitem msg "content") as [c|e]; [|by eexists _, _]);
      (destruct (validate_content c) as [c0|e]; [|by eexists _, _]);
      eexists _, _; (split; [reflexivity|]); cbn; repeat split; try done;
      intros h' Hne; by rewrite lookup_total_insert_ne. }
  destruct Hadd as ([[]|e] & st1 & -> & Hm & Hn & Hs & Hh); [|by eexists _, _].
  destruct (IH st1) as (r & st' & -> & Hm' & Hn' & Hs' & Hh').
  exists r, st'. split; [reflexivity|]. repeat split; try congruence.
  intros h' Hne. by rewrite Hh', Hh.
Qed.

(** The part of [get_session_history] that reads Redis never raises and
    leaves the sessions in memory, and the history objects there are, as
    they were. *)
Lemma history_from_redis_total rc session_id (st : Sessions.State V) :
  ∃ found st',
    Sessions.history_from_redis rc json_loads validate_content session_id st
    = (Sessions.Done found, st')
    ∧ Sessions.memory_sessions st' = Sessions.memory_sessions st
    ∧ (Sessions.next_history st ≤ Sessions.next_history st')%nat
    ∧ (∀ h, (h < Sessions.next_history st)%nat →
            Sessions.histories st' !!! h = Sessions.histories st !!! h)
    ∧ (rc = None → found = None ∧ st' = st)
    ∧ (∀ h, found = Some h → h = Sessions.next_history st
                             ∧ (h < Sessions.next_history st')%nat).
Proof.
  unfold Sessions.history_from_redis. destruct rc as [c|].
  2: { exists None, st. repeat split; try done; lia. }
  unfold Sessions.try_except, Sessions.bind at 1, Sessions.redis_call.
  destruct (Sessions.get c _ (Sessions.server st)) as [[data|e] s] eqn:Hget.
  2: { eexists None, _. split; [reflexivity|]. cbn. repeat split; try done; lia. }
  destruct data as [[|a data]|].
  1,3: eexists None, _; (split; [reflexivity|]); cbn; repeat split; try done; lia.
  unfold Sessions.bind at 1, Sessions.lift at 1.
  destruct (json_loads (String a data)) as [j|e].
  2: { eexists None, _. split; [reflexivity|]. cbn. repeat split; try done; lia. }
  unfold Sessions.bind at 1, Sessions.new_history. cbn [Sessions.next_history
    Sessions.memory_sessions Sessions.histories Sessions.server].
  unfold Sessions.bind at 1, Sessions.lift at 1.
  destruct (Sessions.py_iter j) as [items|e].
  2: { eexists None, _. split; [reflexivity|]. cbn. repeat split; try done; try lia.
       intros h Hh. rewrite lookup_total_insert_ne by lia. done. }
  unfold Sessions.bind.
  match goal with |- context [Sessions.add_decoded _ ?hh items ?st0] =>
    destruct (add_decoded_frame hh items st0) as (r & st' & -> & Hm & Hn & Hs & Hh) end.
  cbn in Hm, Hn, Hs, Hh.
  assert (Hold : ∀ h0, (h0 < Sessions.next_history st)%nat →
                       Sessions.histories st' !!! h0 = Sessions.histories st !!! h0).
  { intros h0 Hlt. rewrite Hh by lia. rewrite lookup_total_insert_ne by lia. done. }
  destruct r as [[]|e].
  - eexists (Some _), st'. split; [reflexivity|]. rewrite Hm, Hn.
    split; [done|]. split; [lia|]. split; [exact Hold|]. split; [done|].
    intros h0 [= <-]. split; [done|lia].
  - eexists None, st'. split; [reflexivity|]. rewrite Hm, Hn.
    split; [done|]. split; [lia|]. split; [exact Hold|]. split; [done|]. done.
Qed.

(** The second part of [get_session_history]: the session in memory,
    made when it is not there. *)
Lemma session_from_memory session_id (st : Sessions.State V) :
  ∃ h st',
    Sessions.bind (Sessions.sessions_contains session_id)
      (fun present =>
         Sessions.bind
           (if present then Sessions.ret tt
            else Sessions.bind Sessions.new_history
                   (fun h => Sessions.sessions_setitem session_id h))
           (fun _ => Sessions.sessions_getitem session_id)) st
    = (Sessions.Done h, st')
    ∧ Sessions.memory_sessions st' !! session_id = Some h
    ∧ Sessions.server st' = Sessions.server st
    ∧ match Sessions.memory_sessions st !! session_id with
      | Some h0 => h = h0 ∧ st' = st
      | None =>
          h = Sessions.next_history st
          ∧ Sessions.next_history st' = S (Sessions.next_history st)
          ∧ Sessions.memory_sessions st' = <[session_id := h]> (Sessions.memory_sessions st)
          ∧ Sessions.histories st' = <[h := []]> (Sessions.histories st)
      end.
Proof.
  unfold Sessions.bind, Sessions.sessions_contains, Sessions.sessions_getitem,
    Sessions.new_history, Sessions.sessions_setitem, Sessions.ret.
  destruct (Sessions.memory_sessions st !! session_id) as [h0|] eqn:Hs.
  - rewrite bool_decide_eq_true_2 by eauto. rewrite Hs. by eexists _, _.
  - rewrite bool_decide_eq_false_2 by (by intros [? ?]). cbn.
    rewrite lookup_insert_eq. eexists _, _. split; [reflexivity|]. cbn.
    by rewrite lookup_insert_eq.
Qed.

(** X15. [get_session_history] never raises, whatever Redis, [json.loads]
    and the message classes do.  It returns either a new history decoded
    from Redis, and then leaves the sessions in memory as they are, or the
    session kept in memory: the stored object itself with its messages, or,
    for a session not in memory, a new empty history that it stores. *)
Theorem get_session_history_total (rc : option (Sessions.Client V))
    (session_id : string) (st : Sessions.State V) :
  Sessions.wf st →
  ∃ h st',
    Sessions.get_session_history rc json_loads validate_content session_id st
    = (Sessions.Done h, st')
    ∧ Sessions.wf st'
    ∧ ((rc ≠ None
        ∧ (Sessions.next_history st ≤ h)%nat
        ∧ Sessions.memory_sessions st' = Sessions.memory_sessions st)
       ∨ (Sessions.memory_sessions st' !! session_id = Some h
          ∧ match Sessions.memory_sessions st !! session_id with
            | Some h0 =>
                h = h0
                ∧ Sessions.histories st' !!! h = Sessions.histories st !!! h0
                ∧ Sessions.memory_sessions st' = Sessions.memory_sessions st
            | None =>
                Sessions.histories st' !!! h = []
                ∧ Sessions.memory_sessions st'
                  = <[session_id := h]> (Sessions.memory_sessions st)
            end)).
Proof.
  intros Hwf. unfold Sessions.get_session_history.
  destruct (history_from_redis_total rc session_id st)
    as (found & st1 & Hrun & Hm & Hn & Hh & Hnone & Hsome).
  erewrite sessions_bind_done by exact Hrun.
  destruct found as [h|].
  - exists h, st1. split; [reflexivity|]. destruct (Hsome h eq_refl) as [-> Hlt]. split.
    + intros sid h0. rewrite Hm. intros Hs. apply Hwf in Hs. lia.
    + left. split; [|split; [lia|exact Hm]]. intros ->. by destruct (Hnone eq_refl).
  - destruct (session_from_memory session_id st1) as (h & st' & -> & Hk & Hsrv & Hcase).
    exists h, st'. split; [reflexivity|]. rewrite Hm in Hcase.
    destruct (Sessions.memory_sessions st !! session_id) as [h0|] eqn:Hs.
    + destruct Hcase as [-> ->]. split.
      * intros sid h1. rewrite Hm. intros Hs1. apply Hwf in Hs1. lia.
      * right. split; [exact Hk|]. split; [done|]. split; [|exact Hm].
        apply Hh. by apply (Hwf session_id).
    + destruct Hcase as (-> & Hn' & Hm' & Hh'). split.
      * intros sid h1. rewrite Hm', Hn'. destruct (decide (session_id = sid)) as [->|Hne].
        -- rewrite lookup_insert_eq. intros [= <-]. lia.
        -- rewrite lookup_insert_ne by done. intros Hs1. apply Hwf in Hs1. lia.
      * right. split; [exact Hk|]. split.
        -- by rewrite Hh', lookup_total_insert_eq.
        -- exact Hm'.
Qed.

(** The loop over the messages that [save_session_history] encodes
    rebuilds them. *)
Lemma add_decoded_encoded h msgs : ∀ st : Sessions.State V,
  Forall (fun m => validate_content (Sessions.content m) = Sessions.Done (Sessions.content m))
    msgs →
  ∃ st',
    Sessions.add_decoded validate_content h (Sessions.message_data <$> msgs) st
    = (Sessions.Done tt, st')
    ∧ Sessions.histories st' !!! h = Sessions.histories st !!! h ++ msgs
    ∧ Sessions.memory_sessions st' = Sessions.memory_sessions st
    ∧ Sessions.next_history st' = Sessions.next_history st.
Proof.
  induction msgs as [|m msgs IH]; intros st Hvalid.
  - exists st. cbn. by rewrite app_nil_r.
  - apply Forall_cons in Hvalid as [Hm Hvalid].
    cbn [fmap list_fmap Sessions.add_decoded].
    assert (Hstep : ∃ st1,
               Sessions.bind (Sessions.lift (Sessions.py_getitem (Sessions.message_data m) "type"))
                 (fun type =>
                    Sessions.bind
                      (if Sessions.is_human type
                       then Sessions.bind
                              (Sessions.lift (Sessions.py_getitem (Sessions.message_data m)
                                                "content"))
                              (fun c => Sessions.bind (Sessions.lift (validate_content c))
                                          (fun c0 => Sessions.add_message h
                                                       (Sessions.HumanMessage c0)))
                       else Sessions.bind
                              (Sessions.lift (Sessions.py_getitem (Sessions.message_data m)
                                                "content"))
                              (fun c => Sessions.bind (Sessions.lift (validate_content c))
                                          (fun c0 => Sessions.add_message h
                                                       (Sessions.AIMessage c0))))
                      (fun _ => Sessions.add_decoded validate_content h
                                  (Sessions.message_data <$> msgs))) st
               = Sessions.add_decoded validate_content h (Sessions.message_data <$> msgs) st1
               ∧ Sessions.histories st1 !!! h = Sessions.histories st !!! h ++ [m]
               ∧ Sessions.memory_sessions st1 = Sessions.memory_sessions st
               ∧ Sessions.next_history st1 = Sessions.next_history st).
    { assert (Hc : Sessions.py_getitem (Sessions.message_data m) "content"
                   = Sessions.Done (Sessions.content m)) by (by destruct m).
      unfold Sessions.bind, Sessions.lift, Sessions.add_message. rewrite Hc, Hm.
      destruct m as [c|c];
        [change (Sessions.py_getitem (Sessions.message_data (Sessions.HumanMessage c)) "type")
           with (Sessions.Done (Sessions.JString "human"))
        |change (Sessions.py_getitem (Sessions.message_data (Sessions.AIMessage c)) "type")
           with (Sessions.Done (Sessions.JString "ai"))];
        cbv beta iota;
        [change (Sessions.is_human (Sessions.JString "human")) with true
        |change (Sessions.is_human (Sessions.JString "ai")) with false];
        cbv beta iota; eexists; (split; [reflexivity|]);
        cbn [Sessions.histories Sessions.memory_sessions Sessions.next_history
               Sessions.content];
        by rewrite lookup_total_insert_eq. }
    destruct Hstep as (st1 & Hstep & Hh1 & Hm1 & Hn1).
    change (list_fmap Sessions.Message Sessions.Json Sessions.message_data msgs)
      with (Sessions.message_data <$> msgs).
    rewrite Hstep.
    destruct (IH st1 Hvalid) as (st' & -> & Hh & Hm' & Hn').
    exists st'. split; [reflexivity|]. rewrite Hh, Hh1, <- app_assoc.
    split; [done|]. split; congruence.
Qed.

(** X16. What [save_session_history] writes, [get_session_history] reads
    back.  With Redis active the save never raises, changes nothing in
    memory, and sends [setex] the text of the messages for one hour; when
    [get] returns that text, [json.loads] reads what [json.dumps] wrote and
    the message classes keep the contents, [get_session_history] returns a
    new history with the same messages in the same order. *)
Theorem session_round_trip (c : Sessions.Client V) (session_id : string)
    (h : nat) (st0 st : Sessions.State V) (v' : V) :
  let msgs := Sessions.histories st0 !!! h in
  let text := json_dumps (Sessions.JArray (Sessions.message_data <$> msgs)) in
  Sessions.get c ("session:" +:+ session_id) (Sessions.server st)
  = (Sessions.Done (Some text), v') →
  text ≠ EmptyString →
  json_loads text = Sessions.Done (Sessions.JArray (Sessions.message_data <$> msgs)) →
  Forall (fun m => validate_content (Sessions.content m) = Sessions.Done (Sessions.content m))
    msgs →
  (∃ st1,
     Sessions.save_session_history (Some c) json_dumps session_id h st0
     = (Sessions.Done tt, st1)
     ∧ Sessions.server st1
       = snd (Sessions.setex c ("session:" +:+ session_id) 3600 text (Sessions.server st0))
     ∧ Sessions.memory_sessions st1 = Sessions.memory_sessions st0
     ∧ Sessions.histories st1 = Sessions.histories st0)
  ∧ ∃ st',
      Sessions.get_session_history (Some c) json_loads validate_content session_id st
      = (Sessions.Done (Sessions.next_history st), st')
      ∧ Sessions.histories st' !!! Sessions.next_history st = msgs
      ∧ Sessions.memory_sessions st' = Sessions.memory_sessions st.
Proof.
  intros msgs text Hget Hne Hloads Hvalid. split.
  - unfold Sessions.save_session_history, Sessions.try_except, Sessions.bind,
      Sessions.messages, Sessions.redis_call.
    fold msgs. fold text.
    destruct (Sessions.setex c _ 3600 text (Sessions.server st0)) as [[[]|e] s];
      by eexists.
  - assert (Hredis : ∃ st',
               Sessions.history_from_redis (Some c) json_loads validate_content session_id st
               = (Sessions.Done (Some (Sessions.next_history st)), st')
               ∧ Sessions.histories st' !!! Sessions.next_history st = msgs
               ∧ Sessions.memory_sessions st' = Sessions.memory_sessions st).
    { unfold Sessions.history_from_redis, Sessions.try_except.
      unfold Sessions.bind at 1. unfold Sessions.redis_call. rewrite Hget.
      destruct text as [|a data] eqn:Htext; [done|].
      unfold Sessions.bind at 1, Sessions.lift at 1. rewrite Hloads.
      unfold Sessions.bind at 1, Sessions.new_history.
      cbn [Sessions.next_history Sessions.memory_sessions Sessions.histories Sessions.server].
      unfold Sessions.bind at 1, Sessions.lift at 1. cbn [Sessions.py_iter].
      unfold Sessions.bind at 1.
      match goal with |- context [Sessions.add_decoded _ ?hh _ ?stx] =>
        destruct (add_decoded_encoded hh msgs stx Hvalid) as (st' & -> & Hh & Hm & Hn) end.
      cbn in Hh, Hm, Hn. rewrite lookup_total_insert_eq in Hh.
      exists st'. unfold Sessions.ret. split; [reflexivity|].
      split; [exact Hh|exact Hm]. }
    destruct Hredis as (st' & Hrun & Hh & Hm).
    exists st'. unfold Sessions.get_session_history.
    erewrite sessions_bind_done by exact Hrun.
    split; [reflexivity|]. split; [exact Hh|exact Hm].
Qed.

(** X17. Without Redis the sessions live in memory only, and a history is
    shared, not copied: [get_session_history] returns the stored object, so
    a message added to it is in the session at once, without a save; a
    history saved under a session is the one a later lookup returns. *)
Theorem memory_history_shared (session_id : string) (msg : Sessions.Message)
    (st : Sessions.State V) :
  ∃ h st1,
    Sessions.get_session_history None json_loads validate_content session_id st
    = (Sessions.Done h, st1)
    ∧ (let st2 := snd (Sessions.add_message h msg st1) in
       Sessions.get_session_history None json_loads validate_content session_id st2
       = (Sessions.Done h, st2)
       ∧ Sessions.session_messages st2 session_id
         = Some (Sessions.histories st1 !!! h ++ [msg]))
    ∧ (∀ h' st3,
         Sessions.save_session_history None json_dumps session_id h' st1
         = (Sessions.Done tt, st3) →
         Sessions.get_session_history None json_loads validate_content session_id st3
         = (Sessions.Done h', st3)).
Proof.
  unfold Sessions.get_session_history, Sessions.history_from_redis.
  unfold Sessions.bind at 1, Sessions.ret at 1.
  destruct (session_from_memory session_id st) as (h & st1 & Hrun & Hk & _ & _).
  exists h, st1. split; [exact Hrun|]. split.
  - cbn zeta. unfold Sessions.bind at 1, Sessions.ret at 1.
    set (st2 := snd (Sessions.add_message h msg st1)).
    assert (Hk2 : Sessions.memory_sessions st2 !! session_id = Some h) by exact Hk.
    destruct (session_from_memory session_id st2) as (h2 & st' & -> & _ & _ & Hcase).
    rewrite Hk2 in Hcase. destruct Hcase as [-> ->]. split; [reflexivity|].
    unfold Sessions.session_messages. rewrite Hk2. cbn.
    by rewrite lookup_total_insert_eq.
  - intros h' st3 Hsave. unfold Sessions.save_session_history, Sessions.sessions_setitem in Hsave.
    injection Hsave as <-.
    unfold Sessions.bind at 1, Sessions.ret at 1.
    match goal with |- context [Sessions.bind _ _ ?stx] =>
      destruct (session_from_memory session_id stx) as (h2 & st' & -> & _ & _ & Hcase) end.
    cbn in Hcase. rewrite lookup_insert_eq in Hcase. by destruct Hcase as [-> ->].
Qed.

(** The in-memory branch of [clear_session]: the [if] guards the [del], so
    the run ends normally and the table loses the key, if it had it. *)
Lemma clear_session_memory_run (session_id : string) (st : Sessions.State V) :
  ∃ st',
    Sessions.clear_session None session_id st
    = (Sessions.Done ("success", "Session " +:+ session_id +:+ " cleared"), st')
    ∧ Sessions.memory_sessions st' = base.delete session_id (Sessions.memory_sessions st)
    ∧ Sessions.histories st' = Sessions.histories st.
Proof.
  unfold Sessions.clear_session, Sessions.try_except, Sessions.bind, Sessions.ret,
    Sessions.sessions_contains, Sessions.sessions_delitem.
  destruct (Sessions.memory_sessions st !! session_id) as [h0|] eqn:Hs.
  - rewrite bool_decide_eq_true_2 by eauto. rewrite Hs. by eexists.
  - rewrite bool_decide_eq_false_2 by (by intros [? ?]).
    exists st. split; [reflexivity|]. split; [|done].
    symmetry. by apply delete_id.
Qed.

(** X18. [clear_session] without Redis never raises and removes the session
    from memory, and only it; a session that is not there is no error; the
    next lookup of the session starts from an empty history.  With Redis
    active, when [delete] raises, the reply is the HTTP error 500 and the
    session stays in memory. *)
Theorem clear_session_memory (session_id : string) (st : Sessions.State V) :
  (∃ st',
     Sessions.clear_session None session_id st
     = (Sessions.Done ("success", "Session " +:+ session_id +:+ " cleared"), st')
     ∧ Sessions.memory_sessions st' = base.delete session_id (Sessions.memory_sessions st)
     ∧ Sessions.histories st' = Sessions.histories st
     ∧ ∃ st'',
         Sessions.get_session_history None json_loads validate_content session_id st'
         = (Sessions.Done (Sessions.next_history st'), st'')
         ∧ Sessions.session_messages st'' session_id = Some [])
  ∧ (∀ (c : Sessions.Client V) e s,
       Sessions.delete c ("session:" +:+ session_id) (Sessions.server st)
       = (Sessions.Fail e, s) →
       ∃ st',
         Sessions.clear_session (Some c) session_id st
         = (Sessions.Fail (Sessions.Exn (HTTPException 500
                                           (DetailText "Error clearing session"))), st')
         ∧ Sessions.memory_sessions st' = Sessions.memory_sessions st).
Proof.
  split.
  - destruct (clear_session_memory_run session_id st) as (st' & Hrun & Hm & Hh). exists st'.
    split; [exact Hrun|]. split; [exact Hm|]. split; [exact Hh|].
    unfold Sessions.get_session_history, Sessions.history_from_redis.
    unfold Sessions.bind at 1, Sessions.ret at 1.
    destruct (session_from_memory session_id st') as (h & st'' & -> & Hk & _ & Hcase).
    rewrite Hm, lookup_delete_eq in Hcase. destruct Hcase as (-> & _ & _ & Hh').
    exists st''. split; [reflexivity|].
    unfold Sessions.session_messages. rewrite Hk. cbn.
    by rewrite Hh', lookup_total_insert_eq.
  - intros c e s Hdel.
    unfold Sessions.clear_session, Sessions.try_except, Sessions.bind, Sessions.redis_call.
    rewrite Hdel. by eexists.
Qed.

(** X19. Without Redis [get_analytics] reports the number of sessions in
    memory; looking up a session that is not there adds one to it, whether
    or not anything is ever said in the session, and clearing a session
    that is there takes one off. *)
Theorem analytics_counts_lookups (session_id : string) (st : Sessions.State V) :
  fst (Sessions.get_analytics None st)
  = Sessions.Done (Z.of_nat (size (Sessions.memory_sessions st)))
  ∧ fst (Sessions.get_analytics None
           (snd (Sessions.get_session_history None json_loads validate_content
                   session_id st)))
    = Sessions.Done
        (Z.of_nat (size (Sessions.memory_sessions st))
         + match Sessions.memory_sessions st !! session_id with
           | Some _ => 0
           | None => 1
           end)
  ∧ fst (Sessions.get_analytics None (snd (Sessions.clear_session None session_id st)))
    = Sessions.Done
        (Z.of_nat (size (Sessions.memory_sessions st))
         - match Sessions.memory_sessions st !! session_id with
           | Some _ => 1
           | None => 0
           end).
Proof.
  assert (Hcount : ∀ st0 : Sessions.State V,
             fst (Sessions.get_analytics None st0)
             = Sessions.Done (Z.of_nat (size (Sessions.memory_sessions st0)))) by done.
  split; [apply Hcount|]. rewrite !Hcount. split.
  - unfold Sessions.get_session_history, Sessions.history_from_redis.
    unfold Sessions.bind at 1, Sessions.ret at 1.
    destruct (session_from_memory session_id st) as (h & st' & -> & _ & _ & Hcase).
    cbn [snd]. destruct (Sessions.memory_sessions st !! session_id) as [h0|] eqn:Hs.
    + destruct Hcase as [_ ->]. f_equal. lia.
    + destruct Hcase as (_ & _ & -> & _). rewrite map_size_insert_None by done.
      f_equal. lia.
  - destruct (clear_session_memory_run session_id st) as (st' & Hrun & Hm & _).
    rewrite Hrun. cbn [snd]. rewrite Hm, map_size_delete.
    destruct (Sessions.memory_sessions st !! session_id) as [h0|] eqn:Hs; cbn.
    + assert (size (Sessions.memory_sessions st) ≠ 0%nat).
      { intros H0. apply map_size_empty_inv in H0. rewrite H0 in Hs.
        by rewrite lookup_empty in Hs. }
      f_equal. lia.
    + f_equal. lia.
Qed.

End SessionFacts.

Lemma wf_one_history : Sessions.wf one_history.
Proof. intros sid h. unfold one_history. cbn. by rewrite lookup_empty. Qed.

(** A lookup with Redis active and nothing stored makes the session in
    memory. *)
Lemma get_session_history_total_witness :
  Sessions.wf one_history
  ∧ ∃ h st',
      Sessions.get_session_history (Some store_client) toy_loads accept_content "s1"
        one_history
      = (Sessions.Done h, st')
      ∧ Sessions.wf st'.
Proof.
  split; [exact wf_one_history|].
  destruct (get_session_history_total toy_loads accept_content (Some store_client) "s1"
              one_history wf_one_history) as (h & st' & Hrun & Hwf & _).
  exists h, st'. split; [exact Hrun|exact Hwf].
Defined.

Lemma one_saved_get :
  Sessions.get store_client ("session:" +:+ "s1") (Sessions.server one_saved)
  = (Sessions.Done
       (Some (toy_dumps (Sessions.JArray
                           (Sessions.message_data
                              <$> Sessions.histories one_history !!! 0%nat)))),
     Sessions.server one_saved).
Proof. vm_compute. reflexivity. Qed.

Lemma one_saved_text :
  toy_dumps (Sessions.JArray
               (Sessions.message_data <$> Sessions.histories one_history !!! 0%nat))
  ≠ EmptyString.
Proof. vm_compute. discriminate. Qed.

Lemma one_saved_loads :
  toy_loads (toy_dumps (Sessions.JArray
                          (Sessions.message_data
                             <$> Sessions.histories one_history !!! 0%nat)))
  = Sessions.Done
      (Sessions.JArray
         (Sessions.message_data <$> Sessions.histories one_history !!! 0%nat)).
Proof. vm_compute. reflexivity. Qed.

Lemma one_saved_valid :
  Forall (fun m => accept_content (Sessions.content m) = Sessions.Done (Sessions.content m))
    (Sessions.histories one_history !!! 0%nat).
Proof. apply Forall_forall. by intros m _. Qed.

(** The history saved under [s1] is read back with its message. *)
Lemma session_round_trip_witness :
  Sessions.get store_client ("session:" +:+ "s1") (Sessions.server one_saved)
  = (Sessions.Done
       (Some (toy_dumps (Sessions.JArray
                           (Sessions.message_data
                              <$> Sessions.histories one_history !!! 0%nat)))),
     Sessions.server one_saved)
  ∧ toy_dumps (Sessions.JArray
                 (Sessions.message_data <$> Sessions.histories one_history !!! 0%nat))
    ≠ EmptyString
  ∧ toy_loads (toy_dumps (Sessions.JArray
                            (Sessions.message_data
                               <$> Sessions.histories one_history !!! 0%nat)))
    = Sessions.Done
        (Sessions.JArray
           (Sessions.message_data <$> Sessions.histories one_history !!! 0%nat))
  ∧ Forall (fun m => accept_content (Sessions.content m)
                     = Sessions.Done (Sessions.content m))
      (Sessions.histories one_history !!! 0%nat)
  ∧ ∃ st',
      Sessions.get_session_history (Some store_client) toy_loads accept_content "s1"
        one_saved
      = (Sessions.Done (Sessions.next_history one_saved), st')
      ∧ Sessions.histories st' !!! Sessions.next_history one_saved
        = Sessions.histories one_history !!! 0%nat.
Proof.
  split; [exact one_saved_get|]. split; [exact one_saved_text|].
  split; [exact one_saved_loads|]. split; [exact one_saved_valid|].
  destruct (session_round_trip toy_loads toy_dumps accept_content store_client "s1" 0%nat
              one_history one_saved (Sessions.server one_saved)
              one_saved_get one_saved_text one_saved_loads one_saved_valid)
    as (_ & st' & Hrun & Hh & _).
  exists st'. split; [exact Hrun|exact Hh].
Defined.
